(** * Trip.js: the temporal derivation engine of the mobility simulation

    A shallow embedding of [src/simulation_vis/src/components/Trip.js]:
    the clock, the time-range derivation, the passenger resolution and
    the three per-frame trip layers, with the properties of the
    specification stated and proved over that embedding.

    Numbers.  A JavaScript number is an exact rational ([Q]), [NaN], or
    one of the two infinities (which [JSON.parse] yields for a literal
    beyond the range of doubles, such as [1e400]).  The rounding of
    IEEE 754 arithmetic is outside the model, and so are overflow of an
    operation on finite operands and the sign of zero.  Equality of
    computed numbers is [Qeq] ([==]), not syntactic equality.  The
    properties below are stated on the arithmetic expressions of the
    code themselves (a position is [a + (b - a) * alpha], not "the end
    point"), or on comparisons and on values the code copies unchanged;
    where a property of the display or of the clock depends on exact
    arithmetic, it carries a bound on the clock value under which
    doubles compute the same integers.

    Values.  The data comes from [JSON.parse]; a field that is absent
    reads as [VUndef].  [VStr s] is the JavaScript string whose code
    units are the characters of [s].  JSON objects occur only as trip
    and passenger records, which are Rocq records of field values; a
    [null] entry of a collection is [None]. *)

From Stdlib Require Import QArith Qround ZArith List String Ascii Bool Lia.
From Stdlib Require Import DecimalString DecimalPos DecimalZ Lqa.
Import ListNotations.

Set Warnings "-register-all".
Local Open Scope Q_scope.

(* ------------------------------------------------------------------ *)
(** ** JavaScript values and the operations the component uses *)

Module JS.

(** [Inf false] is [Infinity], [Inf true] is [-Infinity]. *)
Inductive num : Type :=
| Fin (q : Q)
| NaN
| Inf (negative : bool).

Inductive value : Type :=
| VUndef
| VNull
| VBool (b : bool)
| VNum (n : num)
| VStr (s : string)
| VArr (elems : list value).

(** How an evaluation can end.  [TypeError] is the exception raised by
    a property read on [undefined] or [null] and by destructuring a
    value that is not iterable.  [Unmodelled] marks the conversions
    between strings or arrays and numbers, which this embedding does
    not define.  [OutOfBounds] is produced only by the checking reader
    [Strict] below; JavaScript itself never produces it. *)
Inductive failure : Type := TypeError | Unmodelled | OutOfBounds.

Inductive outcome (A : Type) : Type :=
| Ok (a : A)
| Fail (e : failure).

Arguments Ok {A} a.
Arguments Fail {A} e.

Definition bind {A B : Type} (c : outcome A) (k : A -> outcome B) : outcome B :=
  match c with
  | Ok a => k a
  | Fail e => Fail e
  end.

Notation "x <- c ;; k" := (bind c (fun x => k))
  (at level 61, c at next level, right associativity).

(** Strict and non-strict order on rationals as booleans. *)
Definition Qleb (x y : Q) : bool := Qle_bool x y.
Definition Qltb (x y : Q) : bool := negb (Qle_bool y x).

Definition qmax (x y : Q) : Q := if Qleb x y then y else x.
Definition qmin (x y : Q) : Q := if Qleb x y then x else y.

(** [a <= b], [a < b] on numbers: false as soon as one side is [NaN]. *)
Definition num_le (a b : num) : bool :=
  match a, b with
  | Fin x, Fin y => Qleb x y
  | NaN, _ | _, NaN => false
  | Inf true, _ => true
  | _, Inf false => true
  | _, _ => false
  end.

Definition num_lt (a b : num) : bool :=
  match a, b with
  | Fin x, Fin y => Qltb x y
  | NaN, _ | _, NaN => false
  | Inf true, Inf true => false
  | Inf true, _ => true
  | Inf false, _ => false
  | Fin _, Inf negative => negb negative
  end.

(** [a + b]: opposite infinities add to [NaN]. *)
Definition num_add (a b : num) : num :=
  match a, b with
  | Fin x, Fin y => Fin (x + y)
  | NaN, _ | _, NaN => NaN
  | Inf s, Fin _ => Inf s
  | Fin _, Inf s => Inf s
  | Inf s, Inf s' => if Bool.eqb s s' then Inf s else NaN
  end.

(** [a - b]: equal infinities subtract to [NaN]. *)
Definition num_sub (a b : num) : num :=
  match a, b with
  | Fin x, Fin y => Fin (x - y)
  | NaN, _ | _, NaN => NaN
  | Inf s, Fin _ => Inf s
  | Fin _, Inf s => Inf (negb s)
  | Inf s, Inf s' => if Bool.eqb s s' then NaN else Inf s
  end.

(** The sign of an infinity multiplied or divided by the finite [x],
    which is not zero. *)
Definition scaled (s : bool) (x : Q) : num :=
  Inf (if Qltb x 0 then negb s else s).

(** [a * b]: zero times an infinity is [NaN]. *)
Definition num_mul (a b : num) : num :=
  match a, b with
  | Fin x, Fin y => Fin (x * y)
  | NaN, _ | _, NaN => NaN
  | Inf s, Fin x | Fin x, Inf s => if Qeq_bool x 0 then NaN else scaled s x
  | Inf s, Inf s' => Inf (xorb s s')
  end.

(** [a / b].  A finite number over an infinity is zero; zero over zero
    and an infinity over an infinity are [NaN].  The divisor zero is
    taken as [+0]. *)
Definition num_div (a b : num) : num :=
  match a, b with
  | Fin x, Fin y =>
      if Qeq_bool y 0
      then if Qeq_bool x 0 then NaN else Inf (Qltb x 0)
      else Fin (x / y)
  | NaN, _ | _, NaN => NaN
  | Fin _, Inf _ => Fin 0
  | Inf s, Fin y => scaled s y
  | Inf _, Inf _ => NaN
  end.

(** [Math.max(a, b)] and [Math.min(a, b)]: [NaN] as soon as one argument
    is. *)
Definition Math_max (a b : num) : num :=
  match a, b with
  | Fin x, Fin y => Fin (qmax x y)
  | NaN, _ | _, NaN => NaN
  | Inf false, _ | _, Inf false => Inf false
  | Inf true, n | n, Inf true => n
  end.

Definition Math_min (a b : num) : num :=
  match a, b with
  | Fin x, Fin y => Fin (qmin x y)
  | NaN, _ | _, NaN => NaN
  | Inf true, _ | _, Inf true => Inf true
  | Inf false, n | n, Inf false => n
  end.

(** [typeof v === "number"] *)
Definition is_number (v : value) : bool :=
  match v with
  | VNum _ => true
  | _ => false
  end.

(** [Array.isArray(v)] *)
Definition is_array (v : value) : bool :=
  match v with
  | VArr _ => true
  | _ => false
  end.

(** ToBoolean: what [!v], [v && ...] and [v || ...] test. *)
Definition truthy (v : value) : bool :=
  match v with
  | VUndef | VNull => false
  | VBool b => b
  | VNum (Fin q) => negb (Qeq_bool q 0)
  | VNum NaN => false
  | VNum (Inf _) => true
  | VStr s => negb (String.eqb s EmptyString)
  | VArr _ => true
  end.

(** [v == null] *)
Definition nullish (v : value) : bool :=
  match v with
  | VUndef | VNull => true
  | _ => false
  end.

(** ToNumber.  Strings and arrays convert through their text, which is
    not modelled. *)
Definition to_number (v : value) : outcome num :=
  match v with
  | VUndef => Ok NaN
  | VNull => Ok (Fin 0)
  | VBool b => Ok (Fin (if b then 1 else 0))
  | VNum n => Ok n
  | VStr _ | VArr _ => Fail Unmodelled
  end.

(** [a === b].  Two arrays read from the parsed data are distinct
    objects, so [===] between them is false. *)
Definition strict_eq (a b : value) : bool :=
  match a, b with
  | VUndef, VUndef => true
  | VNull, VNull => true
  | VBool x, VBool y => Bool.eqb x y
  | VNum (Fin x), VNum (Fin y) => Qeq_bool x y
  | VNum (Inf s), VNum (Inf s') => Bool.eqb s s'
  | VStr x, VStr y => String.eqb x y
  | _, _ => false
  end.

(** The key comparison of [Map] (SameValueZero): as [===], except that
    [NaN] equals itself. *)
Definition same_value_zero (a b : value) : bool :=
  match a, b with
  | VNum NaN, VNum NaN => true
  | _, _ => strict_eq a b
  end.

Fixpoint chars (s : string) : list value :=
  match s with
  | EmptyString => []
  | String c s' => VStr (String c EmptyString) :: chars s'
  end.

(** The indexed elements of a value that is not [undefined] or [null]:
    those of an array, the characters of a string, none for a boolean
    or a number. *)
Definition elements (v : value) : list value :=
  match v with
  | VArr l => l
  | VStr s => chars s
  | _ => []
  end.

(** [v.length], for a value that is not [undefined] or [null];
    [None] stands for [undefined]. *)
Definition js_length (v : value) : option nat :=
  match v with
  | VArr l => Some (List.length l)
  | VStr s => Some (String.length s)
  | _ => None
  end.

(** [v.length < 2]: false when the length is [undefined]. *)
Definition shorter_than_2 (v : value) : bool :=
  match js_length v with
  | Some n => (n <? 2)%nat
  | None => false
  end.

(** [v[i]] on an arbitrary value: a TypeError on [undefined] and
    [null], [undefined] past the end. *)
Definition prop_get (v : value) (i : nat) : outcome value :=
  match v with
  | VUndef | VNull => Fail TypeError
  | _ => Ok (nth i (elements v) VUndef)
  end.

(** Reading an element of the route or of the timestamps.  [Lenient] is
    JavaScript: a read past the end gives [undefined].  [Strict] is the
    same read with a bounds check, used to state that no such read
    happens. *)
Inductive access : Type := Lenient | Strict.

Definition arr_get (m : access) (l : list value) (i : nat) : outcome value :=
  match nth_error l i with
  | Some v => Ok v
  | None =>
      match m with
      | Lenient => Ok VUndef
      | Strict => Fail OutOfBounds
      end
  end.

(** A loop that pushes at most one element per item:
    [for (const x of xs) { ...; continue; ...; out.push(y) }]. *)
Fixpoint collect {A B : Type} (f : A -> outcome (option B)) (xs : list A)
  : outcome (list B) :=
  match xs with
  | [] => Ok []
  | x :: xs' =>
      r <- f x ;;
      rest <- collect f xs' ;;
      Ok (match r with
          | Some y => y :: rest
          | None => rest
          end)
  end.

End JS.

Import JS.

(* ------------------------------------------------------------------ *)
(** ** Constants *)

(** [const minTime = 7 * 60] *)
Definition minTime : Q := 7 * 60.

(** [const animationSpeed = 0.5] *)
Definition animationSpeed : Q := 5 # 10.

(* ------------------------------------------------------------------ *)
(** ** Time display *)

(** [value.toString()] for an integer value *)
Definition toString (z : Z) : string := NilZero.string_of_int (Z.to_int z).

(** [addZeroFill] *)
Definition addZeroFill (value : Z) : string :=
  let valueString := toString value in
  if (String.length valueString <? 2)%nat
  then String "0" valueString
  else valueString.

(** [Math.round]: the nearest integer, halves upwards. *)
Definition Math_round (x : Q) : Z := Qfloor (x + (1 # 2)).

(** Truncation towards zero. *)
Definition Qtrunc (x : Q) : Z :=
  if Qleb 0 x then Qfloor x else Qceiling x.

(** [x % y] on numbers: the remainder has the sign of [x]. *)
Definition js_rem (x y : Q) : Q := x - y * inject_Z (Qtrunc (x / y)).

(** [parseInt(x)] for a number [x] that is zero or of magnitude between
    1e-6 and 1e21 (printed without exponent): the integer part. *)
Definition parseInt (x : Q) : Z := Qtrunc x.

(** [returnAnimationDisplayTime].  The division by 60 is exact here;
    the code rounds it to a double, which changes the hour only for
    clock values beyond 10^16. *)
Definition returnAnimationDisplayTime (time : Q) : string * string :=
  let hour := addZeroFill (parseInt (js_rem (inject_Z (Math_round time) / 60) 24)) in
  let minute := addZeroFill (Z.rem (Math_round time) 60) in
  (hour, minute).

(* ------------------------------------------------------------------ *)
(** ** Wait colour *)

Definition color : Type := (Z * Z * Z)%type.

(** The five colours of [waitToColor]. *)
Definition near_white : color := (255, 255, 255)%Z.
Definition light_red : color := (255, 230, 230)%Z.
Definition medium_red : color := (255, 190, 190)%Z.
Definition darker_red : color := (255, 140, 140)%Z.
Definition deep_red : color := (200, 0, 0)%Z.

(** [waitToColor] *)
Definition waitToColor (wait : value) : outcome color :=
  (* Math.max(0, wait || 0) *)
  n <- to_number (if truthy wait then wait else VNum (Fin 0)) ;;
  let w := Math_max (Fin 0) n in
  if num_lt w (Fin 15) then Ok near_white          (* [255, 255, 255] *)
  else if num_lt w (Fin 30) then Ok light_red      (* [255, 230, 230] *)
  else if num_lt w (Fin 45) then Ok medium_red     (* [255, 190, 190] *)
  else if num_lt w (Fin 60) then Ok darker_red     (* [255, 140, 140] *)
  else Ok deep_red.                                (* [200, 0, 0] *)

(* ------------------------------------------------------------------ *)
(** ** Input records *)

(** A trip record of [trips.json]; a field that is absent is [VUndef]. *)
Record trip : Type := mkTrip {
  trip_passenger_id : value;
  trip_route : value;
  trip_timestamp : value
}.

(** A passenger record of [passengers.json]. *)
Record passenger : Type := mkPassenger {
  psg_passenger_id : value;
  psg_timestamp : value;
  psg_loc : value;
  psg_location : value;
  psg_wait_min : value
}.

(* ------------------------------------------------------------------ *)
(** ** The clock domain: [dataMaxFromTrips], [dataMaxFromPassengers], [maxTime] *)

(** One iteration of the scanning loops, on the [timestamp] field of a
    record that is not [null]:
    [if (x.timestamp && x.timestamp.length) { const last = ...;
       if (typeof last === "number" && last > maxT) maxT = last; }] *)
Definition scanLast (maxT : num) (timestamp : value) : num :=
  let nonEmpty :=
    match js_length timestamp with
    | Some n => negb (n =? 0)%nat
    | None => false
    end in
  if truthy timestamp && nonEmpty then
    let ts := elements timestamp in
    match nth (List.length ts - 1) ts VUndef with
    | VNum last => if num_lt maxT last then last else maxT
    | _ => maxT
    end
  else maxT.

Definition dataMaxFromTrips (trips : list (option trip)) : num :=
  fold_left
    (fun maxT t =>
       match t with
       | Some t => scanLast maxT (trip_timestamp t)
       | None => maxT
       end)
    trips (Fin 0).

Definition dataMaxFromPassengers (passengers : list (option passenger)) : num :=
  fold_left
    (fun maxT p =>
       match p with
       | Some p => scanLast maxT (psg_timestamp p)
       | None => maxT
       end)
    passengers (Fin 0).

(** [Math.max(minTime + 60, dataMaxFromTrips, dataMaxFromPassengers)] *)
Definition candidate (trips : list (option trip))
                     (passengers : list (option passenger)) : num :=
  Math_max (Math_max (Fin (minTime + 60)) (dataMaxFromTrips trips))
           (dataMaxFromPassengers passengers).

(** [maxTime]:
    [Number.isFinite(candidate) && candidate > minTime
       ? candidate : minTime + 60].
    The result is finite in both branches. *)
Definition maxTime (trips : list (option trip))
                   (passengers : list (option passenger)) : Q :=
  match candidate trips passengers with
  | Fin c => if Qltb minTime c then c else minTime + 60
  | NaN | Inf _ => minTime + 60
  end.

(* ------------------------------------------------------------------ *)
(** ** The animation clock *)

(** [returnAnimationTime], with the [maxTime] it closes over.  The sum
    is exact here; in doubles [t + 0.005] is [t] itself from 2^46 on,
    where the clock of the code stops advancing. *)
Definition returnAnimationTime (maxTime : Q) (t : Q) : Q :=
  if Qltb maxTime t then minTime
  else t + (1 # 100) * animationSpeed.

(** The two writers of the [time] state: the animation frame
    ([setTime(returnAnimationTime)]) and the slider ([SliderChange]). *)
Inductive clock_event : Type :=
| Tick
| Seek (v : Q).

Definition clock_step (maxTime : Q) (time : Q) (e : clock_event) : Q :=
  match e with
  | Tick => returnAnimationTime maxTime time
  | Seek v => v
  end.

(** The clock values a frame can observe: the initial [useState(minTime)],
    then any sequence of ticks and of slider positions between the
    slider's [min] and [max]. *)
Inductive observed (maxTime : Q) : Q -> Prop :=
| obs_init : observed maxTime minTime
| obs_tick t : observed maxTime t ->
    observed maxTime (clock_step maxTime t Tick)
| obs_seek t v : observed maxTime t -> minTime <= v -> v <= maxTime ->
    observed maxTime (clock_step maxTime t (Seek v)).

(* ------------------------------------------------------------------ *)
(** ** Passenger resolution: [passengerInfos] *)

Record info : Type := mkInfo {
  call : value;
  pickupTime : value;
  pickupLoc : value
}.

(** The [Map] from passenger id to trip, as its entries in insertion
    order. *)
Definition pid_map : Type := list (value * trip).

Definition map_has (m : pid_map) (pid : value) : bool :=
  existsb (fun kv => same_value_zero (fst kv) pid) m.

Definition map_get (m : pid_map) (pid : value) : option trip :=
  match find (fun kv => same_value_zero (fst kv) pid) m with
  | Some kv => Some (snd kv)
  | None => None
  end.

(** [tripByPid]: the first trip of each id is kept. *)
Definition tripByPid (trips : list (option trip)) : pid_map :=
  fold_left
    (fun m t =>
       match t with
       | None => m
       | Some t =>
           let pid := trip_passenger_id t in
           if nullish pid then m
           else if map_has m pid then m
           else m ++ [(pid, t)]
       end)
    trips [].

(** [const [pxLon, pxLat] = pickupLoc], for a truthy [pickupLoc]:
    numbers and booleans are not iterable. *)
Definition destructure2 (v : value) : outcome (value * value) :=
  match v with
  | VArr _ | VStr _ =>
      Ok (nth 0 (elements v) VUndef, nth 1 (elements v) VUndef)
  | _ => Fail TypeError
  end.

(** The search [for (let i = 0; i < t.route.length; i++)] from index [i]
    on, [pts] being the route points from [i]; the result is the value
    of [pickupTime] after the loop. *)
Fixpoint scanRoute (pxLon pxLat : value) (timestamp : list value)
                   (pts : list value) (i : nat) : value :=
  match pts with
  | [] => VNull
  | pt :: pts' =>
      if negb (is_array pt) || (List.length (elements pt) <? 2)%nat
      then scanRoute pxLon pxLat timestamp pts' (S i)
      else if strict_eq (nth 0 (elements pt) VUndef) pxLon
              && strict_eq (nth 1 (elements pt) VUndef) pxLat
      then
        let tsVal := nth i timestamp VUndef in
        if is_number tsVal then tsVal else VNull
      else scanRoute pxLon pxLat timestamp pts' (S i)
  end.

(** The pickup coordinate of a passenger record. *)
Definition pickupLocOf (p : passenger) : value :=
  if is_array (psg_loc p) && (0 <? List.length (elements (psg_loc p)))%nat
  then nth 0 (elements (psg_loc p)) VUndef
  else if is_array (psg_location p) then psg_location p
  else VNull.

Definition callOf (p : passenger) : value :=
  let hasTs := is_array (psg_timestamp p)
               && (1 <=? List.length (elements (psg_timestamp p)))%nat in
  if hasTs then nth 0 (elements (psg_timestamp p)) VUndef else VNull.

(** The body of the loop over passengers, for a record that is not
    [null]. *)
Definition passengerInfo (byPid : pid_map) (p : passenger) : outcome info :=
  let t := map_get byPid (psg_passenger_id p) in
  let call := callOf p in
  let pickupLoc := pickupLocOf p in
  fromTrip <-
    match t with
    | Some t =>
        if truthy pickupLoc && is_array (trip_route t)
           && is_array (trip_timestamp t)
        then
          px <- destructure2 pickupLoc ;;
          Ok (scanRoute (fst px) (snd px) (elements (trip_timestamp t))
                        (elements (trip_route t)) 0)
        else Ok VNull
    | None => Ok VNull
    end ;;
  let withWait :=
    match call, psg_wait_min p with
    | VNum c, VNum w => if nullish fromTrip then VNum (num_add c w) else fromTrip
    | _, _ => fromTrip
    end in
  let pickupTime := if nullish withWait then call else withWait in
  Ok (mkInfo call pickupTime pickupLoc).

Definition passengerInfos (passengers : list (option passenger))
                          (trips : list (option trip)) : outcome (list info) :=
  let byPid := tripByPid trips in
  collect
    (fun p =>
       match p with
       | None => Ok None
       | Some p => i <- passengerInfo byPid p ;; Ok (Some i)
       end)
    passengers.

(* ------------------------------------------------------------------ *)
(** ** Per-frame passengers: [visiblePassengers] *)

Record visible : Type := mkVisible {
  vis_location : value;
  vis_wait : value
}.

Definition visiblePassenger (time : Q) (i : info) : option visible :=
  match call i, pickupTime i with
  | VNum c, VNum p =>
      if truthy (pickupLoc i) && num_le c (Fin time) && num_le (Fin time) p
      then Some (mkVisible (pickupLoc i) (VNum (num_sub p c)))
      else None
  | _, _ => None
  end.

Fixpoint visiblePassengers (infos : list info) (time : Q) : list visible :=
  match infos with
  | [] => []
  | i :: rest =>
      match visiblePassenger time i with
      | Some v => v :: visiblePassengers rest time
      | None => visiblePassengers rest time
      end
  end.

(* ------------------------------------------------------------------ *)
(** ** The trip layers *)

(** The guard that opens the body of each of the three trip loops:
    [!t || !t.route || !t.timestamp || t.route.length < 2
     || t.timestamp.length < 2]. *)
Definition skipped (t : option trip) : bool :=
  match t with
  | None => true
  | Some t =>
      negb (truthy (trip_route t))
      || negb (truthy (trip_timestamp t))
      || shorter_than_2 (trip_route t)
      || shorter_than_2 (trip_timestamp t)
  end.

(** *** Layer [destinations] *)

Definition destination (time : Q) (t : option trip) : option value :=
  if skipped t then None
  else
    match t with
    | None => None
    | Some t =>
        let rt := elements (trip_route t) in
        let ts := elements (trip_timestamp t) in
        let drop := nth (List.length rt - 1) rt VUndef in
        let pickupTime := nth 1 ts VUndef in
        let end_ := nth (List.length ts - 1) ts VUndef in
        match pickupTime, end_ with
        | VNum p, VNum e =>
            if num_lt (Fin time) p || num_lt e (Fin time) then None
            else Some drop
        | _, _ => None
        end
    end.

Fixpoint destinations (trips : list (option trip)) (time : Q) : list value :=
  match trips with
  | [] => []
  | t :: rest =>
      match destination time t with
      | Some d => d :: destinations rest time
      | None => destinations rest time
      end
  end.

(** *** The position of the vehicle (the block shared by [match-arcs]
    and [occupied-arcs]) *)

(** [Math.max(0, Math.min(i, len - 1))] *)
Definition clampIndex (i len : nat) : nat := Nat.max 0 (Nat.min i (len - 1)).

(** [time >= v] for an arbitrary value [v].  A string or an array is
    compared through its conversion to a number, which is not modelled:
    the outcome is then [Fail Unmodelled], where the code itself raises
    nothing. *)
Definition time_ge (time : Q) (v : value) : outcome bool :=
  n <- to_number v ;;
  Ok (num_le n (Fin time)).

(** The loop [for (let k = 0; k < ts.length - 1; k++)], from [k] on with
    [fuel] iterations left and the current value of [idx]. *)
Fixpoint segmentLoop (m : access) (ts : list value) (time : Q)
                     (fuel k idx : nat) : outcome nat :=
  match fuel with
  | O => Ok idx
  | S fuel' =>
      tk <- arr_get m ts k ;;
      hit <-
        match tk with
        | VNum a =>
            tk1 <- arr_get m ts (k + 1) ;;
            match tk1 with
            | VNum b => Ok (num_le a (Fin time) && num_lt (Fin time) b)
            | _ => Ok false
            end
        | _ => Ok false
        end ;;
      if hit then Ok k
      else
        last <- arr_get m ts (List.length ts - 1) ;;
        ge <- time_ge time last ;;
        segmentLoop m ts time fuel' (S k)
                    (if ge then (List.length ts - 2)%nat else idx)
  end.

(** [a[i] + (b[i] - a[i]) * alpha] *)
Definition lerp (a b : value) (i : nat) (alpha : num) : outcome num :=
  ai <- prop_get a i ;;
  bi <- prop_get b i ;;
  na <- to_number ai ;;
  nb <- to_number bi ;;
  Ok (num_add na (num_mul (num_sub nb na) alpha)).

(** [Math.max(0, Math.min(1, (time - t0) / (t1 - t0)))] *)
Definition alphaOf (time : Q) (t0 t1 : num) : num :=
  Math_max (Fin 0)
    (Math_min (Fin 1) (num_div (num_sub (Fin time) t0) (num_sub t1 t0))).

(** [curr] after the interpolation block. *)
Definition currentPosition (m : access) (rt ts : list value) (time : Q)
  : outcome value :=
  idx <- segmentLoop m ts time (List.length ts - 1) 0 0 ;;
  a <- arr_get m rt (clampIndex idx (List.length rt)) ;;
  b <- arr_get m rt (clampIndex (idx + 1) (List.length rt)) ;;
  t0 <- arr_get m ts (clampIndex idx (List.length ts)) ;;
  t1 <- arr_get m ts (clampIndex (idx + 1) (List.length ts)) ;;
  match t0, t1 with
  | VNum n0, VNum n1 =>
      if num_lt n0 n1 then
        let alpha := alphaOf time n0 n1 in
        x <- lerp a b 0 alpha ;;
        y <- lerp a b 1 alpha ;;
        Ok (VArr [VNum x; VNum y])
      else Ok a
  | _, _ => Ok a
  end.

Record arc : Type := mkArc {
  source : value;
  target : value
}.

(** *** Layer [match-arcs] *)

Definition matchArc (m : access) (time : Q) (t : option trip)
  : outcome (option arc) :=
  if skipped t then Ok None
  else
    match t with
    | None => Ok None
    | Some t =>
        let ts := elements (trip_timestamp t) in
        let rt := elements (trip_route t) in
        start <- arr_get m ts 0 ;;
        pickupTime <- arr_get m ts 1 ;;
        match start, pickupTime with
        | VNum s, VNum p =>
            if num_lt (Fin time) s || num_lt p (Fin time) then Ok None
            else
              curr <- currentPosition m rt ts time ;;
              pickup <- arr_get m rt 1 ;;
              if is_array curr && is_array pickup
              then Ok (Some (mkArc curr pickup))
              else Ok None
        | _, _ => Ok None
        end
    end.

Definition matchArcs (m : access) (trips : list (option trip)) (time : Q)
  : outcome (list arc) :=
  collect (matchArc m time) trips.

(** *** Layer [occupied-arcs] *)

Definition occupiedArc (m : access) (time : Q) (t : option trip)
  : outcome (option arc) :=
  if skipped t then Ok None
  else
    match t with
    | None => Ok None
    | Some t =>
        let ts := elements (trip_timestamp t) in
        let rt := elements (trip_route t) in
        pickupTime <- arr_get m ts 1 ;;
        dropTime <- arr_get m ts (List.length ts - 1) ;;
        match pickupTime, dropTime with
        | VNum p, VNum d =>
            if num_lt (Fin time) p || num_lt d (Fin time) then Ok None
            else
              curr <- currentPosition m rt ts time ;;
              dest <- arr_get m rt (List.length rt - 1) ;;
              if is_array curr && is_array dest
              then Ok (Some (mkArc curr dest))
              else Ok None
        | _, _ => Ok None
        end
    end.

Definition occupiedArcs (m : access) (trips : list (option trip)) (time : Q)
  : outcome (list arc) :=
  collect (occupiedArc m time) trips.

(* ------------------------------------------------------------------ *)
(** ** Notions used to state the properties *)

(** The increment of one animation frame, [0.01 * animationSpeed]. *)
Definition clockIncrement : Q := (1 # 100) * animationSpeed.

(** The clock after [n] animation frames without a slider event. *)
Definition ticks (maxTime : Q) (n : nat) (t : Q) : Q :=
  Nat.iter n (fun t => clock_step maxTime t Tick) t.

(** [2^40] minutes.  Up to this value two neighbouring doubles are
    less than [0.00025] apart: adding the frame increment [0.005] moves
    the clock, every integer is a double, and the rounding of [n / 60]
    is too small to reach the next integer.  The properties of the
    display and of the loop that rest on exact arithmetic are stated for
    clock values up to this limit. *)
Definition clockLimit : Q := 1099511627776.

(** The reading as the specification words it: hour [floor(t/60) mod 24],
    minute [round(t) mod 60], zero-padded. *)
Definition displayAsSpecified (t : Q) : string * string :=
  (addZeroFill (Qfloor (t / 60) mod 24), addZeroFill (Math_round t mod 60)).

(** [timestamp[last]] when the field is a non-empty array that ends in a
    number. *)
Definition lastNumber (timestamp : value) : option Q :=
  match timestamp with
  | VArr l =>
      match last l VUndef with
      | VNum (Fin q) => Some q
      | _ => None
      end
  | _ => None
  end.

(** The upper bound as the specification words it: the trips alone
    decide. *)
Definition upperBoundAsSpecified (trips : list (option trip)) : num :=
  Math_max (Fin (minTime + 60)) (dataMaxFromTrips trips).

(** The field is a non-empty array that ends in [Infinity]. *)
Definition endsAtInfinity (timestamp : value) : Prop :=
  exists l, timestamp = VArr l /\ last l VUndef = VNum (Inf false).

(** A passenger event called at minute 1000, without any other field. *)
Definition latePassenger : passenger :=
  mkPassenger VUndef (VArr [VNum (Fin 1000)]) VUndef VUndef VUndef.

(** The [timestamp] field of an entry of a collection. *)
Definition tripTimestamp (t : option trip) : value :=
  match t with
  | Some t => trip_timestamp t
  | None => VUndef
  end.

Definition passengerTimestamp (p : option passenger) : value :=
  match p with
  | Some p => psg_timestamp p
  | None => VUndef
  end.

(** The first trip of the collection, in its order, that carries the
    passenger id [pid]. *)
Fixpoint firstTrip (pid : value) (trips : list (option trip)) : option trip :=
  match trips with
  | [] => None
  | None :: rest => firstTrip pid rest
  | Some t :: rest =>
      if negb (nullish (trip_passenger_id t))
         && same_value_zero (trip_passenger_id t) pid
      then Some t
      else firstTrip pid rest
  end.

(** The route point [pt] is a coordinate pair equal, in both values, to
    the coordinates [lon], [lat]. *)
Definition atPickup (lon lat pt : value) : bool :=
  is_array pt
  && (2 <=? List.length (elements pt))%nat
  && strict_eq (nth 0 (elements pt) VUndef) lon
  && strict_eq (nth 1 (elements pt) VUndef) lat.





(** *** Well-formed trips *)

(** A coordinate pair [[lon, lat]]. *)
Definition point (xy : Q * Q) : value :=
  VArr [VNum (Fin (fst xy)); VNum (Fin (snd xy))].

(** A numeric timestamp. *)
Definition stamp (q : Q) : value := VNum (Fin q).

(** A trip whose route is [pts] and whose timestamps are [qs]. *)
Definition tripOf (pid : value) (pts : list (Q * Q)) (qs : list Q) : trip :=
  mkTrip pid (VArr (map point pts)) (VArr (map stamp qs)).

(** [timestamps[k] <= t < timestamps[k+1]] *)
Definition inSegment (qs : list Q) (t : Q) (k : nat) : bool :=
  Qleb (nth k qs 0) t && Qltb t (nth (S k) qs 0).

(** The timestamps never decrease from one index to the next. *)
Definition nondecreasing (qs : list Q) : Prop :=
  forall i, (S i < List.length qs)%nat -> nth i qs 0 <= nth (S i) qs 0.

(** [a + (b - a) * alpha] *)
Definition mix (a b alpha : Q) : Q := a + (b - a) * alpha.

(** [clamp((t - t0) / (t1 - t0), 0, 1)] *)
Definition fraction (t0 t1 t : Q) : Q := qmax 0 (qmin 1 ((t - t0) / (t1 - t0))).

(** The evaluation [r] ended with a coordinate pair equal to [(x, y)]. *)
Definition at_position (r : outcome value) (xy : Q * Q) : Prop :=
  exists x y, r = Ok (VArr [VNum (Fin x); VNum (Fin y)])
              /\ x == fst xy /\ y == snd xy.

(** The sampled position of a well-formed path at time [t]. *)
Definition sample (pts : list (Q * Q)) (qs : list Q) (t : Q) : outcome value :=
  currentPosition Lenient (map point pts) (map stamp qs) t.

(** The evaluation did not read past the end of an array. *)
Definition in_bounds {A : Type} (r : outcome A) : Prop := r <> Fail OutOfBounds.

(** *** Malformed trips *)

(** The field is absent, [null], or an array of fewer than two
    elements. *)
Definition absentOrShort (v : value) : Prop :=
  v = VUndef \/ v = VNull \/ exists l, v = VArr l /\ (List.length l < 2)%nat.

(** The timestamp at index [i] is not a number. *)
Definition nonNumericAt (t : trip) (i : nat) : Prop :=
  is_number (nth i (elements (trip_timestamp t)) VUndef) = false.

(** The index of the last timestamp. *)
Definition lastIndex (t : trip) : nat :=
  (List.length (elements (trip_timestamp t)) - 1)%nat.

(** A trip without a usable route or timestamp array, or without
    numeric phase boundaries: the pickup time [timestamp[1]] is not a
    number, or neither the dispatch time [timestamp[0]] nor the drop
    time [timestamp[last]] is. *)
Definition malformed (t : trip) : Prop :=
  absentOrShort (trip_route t)
  \/ absentOrShort (trip_timestamp t)
  \/ nonNumericAt t 1
  \/ (nonNumericAt t 0 /\ nonNumericAt t (lastIndex t)).

(** The trip of the specification's example: timestamps [0, 10, 20]
    along [[0,0], [1,1], [2,2]]. *)
Definition exampleTrip : trip :=
  tripOf VUndef [(0, 0); (1, 1); (2, 2)] [0; 10; 20].

(** A path that stands still in time between its second and third
    point: timestamps [0, 10, 10, 20] along [[0,0], [1,1], [5,5], [9,9]]. *)
Definition jumpPoints : list (Q * Q) := [(0, 0); (1, 1); (5, 5); (9, 9)].
Definition jumpStamps : list Q := [0; 10; 10; 20].

(** Two trips of passenger 7, and passenger events of that passenger:
    one waiting at [[1,1]], a stop of the first trip, and one waiting
    at [[8,8]], on neither route, with and without [wait_min]. *)
Definition firstTripOf7 : trip :=
  tripOf (VNum (Fin 7)) [(0, 0); (1, 1); (2, 2)] [0; 10; 20].
Definition secondTripOf7 : trip :=
  tripOf (VNum (Fin 7)) [(1, 1); (3, 3)] [50; 60].
Definition tripsOf7 : list (option trip) :=
  [Some firstTripOf7; Some secondTripOf7].

Definition passengerAtStop : passenger :=
  mkPassenger (VNum (Fin 7)) (VArr [stamp 3]) (VArr [point (1, 1)])
              VUndef (stamp 5).
Definition passengerNoWait : passenger :=
  mkPassenger (VNum (Fin 7)) (VArr [stamp 3]) (VArr [point (8, 8)])
              VUndef VUndef.


(** A trip with dispatch and pickup times but [null] as its drop
    time. *)
Definition tripWithoutDropTime : trip :=
  mkTrip VUndef (VArr (map point [(0, 0); (1, 1); (2, 2)]))
         (VArr [stamp 0; stamp 10; VNull]).

(** A trip whose first route point has one coordinate only, and a trip
    whose [route] is [true]; both have two numeric timestamps. *)
Definition tripWithShortPoint : trip :=
  mkTrip VUndef (VArr [VArr [stamp 0]; point (1, 1)])
         (VArr [stamp 0; stamp 10]).
Definition tripWithFlagRoute : trip :=
  mkTrip VUndef (VBool true) (VArr [stamp 0; stamp 10]).

(* ------------------------------------------------------------------ *)
(** ** Notions used to state the further properties *)

(** The entries of a collection that are not [null]. *)
Fixpoint present {A : Type} (xs : list (option A)) : list A :=
  match xs with
  | [] => []
  | Some a :: rest => a :: present rest
  | None :: rest => present rest
  end.

(** The green channel of a colour [[r, g, b]]. *)
Definition green (c : color) : Z := snd (fst c).

(** [typeof v === "string"] *)
Definition is_string (v : value) : bool :=
  match v with
  | VStr _ => true
  | _ => false
  end.

(** The pickup location can be destructured, or is never destructured:
    it is falsy, an array or a string. *)
Definition destructurable (v : value) : bool :=
  negb (truthy v) || is_array v || is_string v.

(* ------------------------------------------------------------------ *)
(** ** App.js: the time range computed by [getData] *)

(** [const SIM_START_MIN = 7 * 60] *)
Definition SIM_START_MIN : Q := 7 * 60.

(** The two accumulators of [getData] start at
    [Number.POSITIVE_INFINITY] and [Number.NEGATIVE_INFINITY] and then
    hold timestamps read from the trips. *)
Inductive bound : Type :=
| NegInf
| PosInf
| Val (v : value).

(** The number an accumulator holds. *)
Definition boundNumber (b : bound) : outcome num :=
  match b with
  | NegInf => Ok (Inf true)
  | PosInf => Ok (Inf false)
  | Val v => to_number v
  end.

(** [a < b] for a timestamp [a] and an accumulator [b]. *)
Definition below (a : value) (b : bound) : outcome bool :=
  na <- to_number a ;;
  nb <- boundNumber b ;;
  Ok (num_lt na nb).

(** [a > b] for a timestamp [a] and an accumulator [b]. *)
Definition above (a : value) (b : bound) : outcome bool :=
  na <- to_number a ;;
  nb <- boundNumber b ;;
  Ok (num_lt nb na).

(** The callback of [TRIP.forEach], on the accumulators
    [(minTime, maxTime)].  [t.timestamp] on a [null] entry raises. *)
Definition rangeStep (acc : bound * bound) (t : option trip)
  : outcome (bound * bound) :=
  match t with
  | None => Fail TypeError
  | Some t =>
      let timestamp := trip_timestamp t in
      let isEmpty :=
        match js_length timestamp with
        | Some n => (n =? 0)%nat
        | None => false
        end in
      if negb (truthy timestamp) || isEmpty then Ok acc
      else
        let ts := elements timestamp in
        let localMin := nth 0 ts VUndef in
        let localMax := nth (List.length ts - 1) ts VUndef in
        lower <- below localMin (fst acc) ;;
        higher <- above localMax (snd acc) ;;
        Ok (if lower then Val localMin else fst acc,
            if higher then Val localMax else snd acc)
  end.

Fixpoint scanRange (trips : list (option trip)) (acc : bound * bound)
  : outcome (bound * bound) :=
  match trips with
  | [] => Ok acc
  | t :: rest => acc' <- rangeStep acc t ;; scanRange rest acc'
  end.

(** [Math.ceil] *)
Definition Math_ceil (n : num) : num :=
  match n with
  | Fin q => Fin (inject_Z (Qceiling q))
  | NaN => NaN
  | Inf s => Inf s
  end.

(** The [{ min: sliderMin, max: sliderMax }] that [getData] stores:
    [maxTime === Number.NEGATIVE_INFINITY ? SIM_START_MIN
                                          : Math.ceil(maxTime)]. *)
Definition timeRange (trips : list (option trip)) : outcome (Q * num) :=
  acc <- scanRange trips (PosInf, NegInf) ;;
  let sliderMin := SIM_START_MIN in
  match snd acc with
  | NegInf => Ok (sliderMin, Fin SIM_START_MIN)
  | PosInf => Ok (sliderMin, Inf false)
  | Val maxTime =>
      if strict_eq maxTime (VNum (Inf true))
      then Ok (sliderMin, Fin SIM_START_MIN)
      else n <- to_number maxTime ;; Ok (sliderMin, Math_ceil n)
  end.

(** The accumulators as optional rationals. *)
Definition lowerOf (o : option Q) : bound :=
  match o with
  | Some q => Val (stamp q)
  | None => PosInf
  end.

Definition upperOf (o : option Q) : bound :=
  match o with
  | Some q => Val (stamp q)
  | None => NegInf
  end.

(** A trip record whose timestamps are absent or an array of numbers. *)
Definition numericTimestamps (t : option trip) : Prop :=
  exists tr, t = Some tr
             /\ (trip_timestamp tr = VUndef
                 \/ exists qs, trip_timestamp tr = VArr (map stamp qs)).

(** The integer a displayed string of digits stands for. *)
Definition readBack (s : string) : option Z :=
  option_map Z.of_int (NilZero.int_of_string s).

(* ================================================================== *)
(** * Properties *)

(** ** Booleans and the order on rationals *)

Lemma Qleb_true (x y : Q) : Qleb x y = true <-> x <= y.
Proof. unfold Qleb. apply Qle_bool_iff. Qed.

Lemma Qleb_false (x y : Q) : Qleb x y = false <-> y < x.
Proof.
  unfold Qleb. split; intro H.
  - apply Qnot_le_lt. intro Hle. apply Qle_bool_iff in Hle. congruence.
  - destruct (Qle_bool x y) eqn:E; [|reflexivity].
    apply Qle_bool_iff in E. apply Qlt_not_le in H. contradiction.
Qed.

Lemma Qltb_true (x y : Q) : Qltb x y = true <-> x < y.
Proof.
  unfold Qltb. rewrite negb_true_iff. apply (Qleb_false y x).
Qed.

Lemma Qltb_false (x y : Q) : Qltb x y = false <-> y <= x.
Proof.
  unfold Qltb. rewrite negb_false_iff. apply (Qleb_true y x).
Qed.

Lemma Qleb_reflect (x y : Q) : reflect (x <= y) (Qleb x y).
Proof.
  destruct (Qleb x y) eqn:E; constructor.
  - now apply Qleb_true.
  - apply Qleb_false in E. now apply Qlt_not_le.
Qed.

Lemma Qltb_reflect (x y : Q) : reflect (x < y) (Qltb x y).
Proof.
  destruct (Qltb x y) eqn:E; constructor.
  - now apply Qltb_true.
  - apply Qltb_false in E. now apply Qle_not_lt.
Qed.

(** Case analysis on every comparison that occurs in the goal, the
    comparisons between plain terms first. *)
Ltac plain_term x :=
  lazymatch x with
  | context [if _ then _ else _] => fail
  | _ => idtac
  end.

Ltac order_cases :=
  repeat match goal with
         | |- context [Qleb ?x ?y] =>
             plain_term x; plain_term y; destruct (Qleb_reflect x y)
         | |- context [Qltb ?x ?y] =>
             plain_term x; plain_term y; destruct (Qltb_reflect x y)
         end.

Lemma qmax_ub_l (x y : Q) : x <= qmax x y.
Proof. unfold qmax. order_cases; lra. Qed.

Lemma qmax_ub_r (x y : Q) : y <= qmax x y.
Proof. unfold qmax. order_cases; lra. Qed.

Lemma qmax_cases (x y : Q) : qmax x y = x \/ qmax x y = y.
Proof. unfold qmax. destruct (Qleb x y); auto. Qed.

(* ------------------------------------------------------------------ *)
(** ** Wait colour (C6) *)

Lemma waitToColor_number (q : Q) :
  waitToColor (VNum (Fin q)) =
  Ok (if Qltb q 15 then near_white
      else if Qltb q 30 then light_red
      else if Qltb q 45 then medium_red
      else if Qltb q 60 then darker_red
      else deep_red).
Proof.
  unfold waitToColor, truthy.
  destruct (Qeq_bool q 0) eqn:E;
    cbn [negb to_number bind Math_max num_lt]; unfold qmax.
  - apply Qeq_bool_iff in E.
    order_cases; try reflexivity; lra.
  - order_cases; try reflexivity; lra.
Qed.

(** C6.  The colour of a wait value is given by five buckets, closed on
    the left and open on the right: below 15 near-white (a negative
    wait counts as 0), from 15 light red, from 30 medium red, from 45
    darker red, from 60 on deep red; a missing wait ([undefined] or
    [null]) counts as 0.  So 15 is in the second bucket and 60 in the
    fifth. *)
Theorem waitToColor_buckets (w : Q) :
  (w < 15 -> waitToColor (VNum (Fin w)) = Ok near_white)
  /\ (15 <= w -> w < 30 -> waitToColor (VNum (Fin w)) = Ok light_red)
  /\ (30 <= w -> w < 45 -> waitToColor (VNum (Fin w)) = Ok medium_red)
  /\ (45 <= w -> w < 60 -> waitToColor (VNum (Fin w)) = Ok darker_red)
  /\ (60 <= w -> waitToColor (VNum (Fin w)) = Ok deep_red)
  /\ (w < 0 -> waitToColor (VNum (Fin w)) = waitToColor (VNum (Fin 0)))
  /\ waitToColor VUndef = waitToColor (VNum (Fin 0))
  /\ waitToColor VNull = waitToColor (VNum (Fin 0))
  /\ waitToColor (VNum (Fin 15)) = Ok light_red
  /\ waitToColor (VNum (Fin 60)) = Ok deep_red.
Proof.
  repeat split; intros; try reflexivity;
    rewrite ?waitToColor_number; order_cases; try reflexivity; lra.
Qed.

Lemma waitToColor_buckets_witness :
  waitToColor (VNum (Fin (149 # 10))) = Ok near_white
  /\ waitToColor (VNum (Fin (599 # 10))) = Ok darker_red
  /\ waitToColor (VNum (Fin (-3))) = waitToColor (VNum (Fin 0)).
Proof.
  split; [|split].
  - apply (proj1 (waitToColor_buckets (149 # 10))). reflexivity.
  - destruct (waitToColor_buckets (599 # 10)) as (_ & _ & _ & H & _).
    apply H; [discriminate | reflexivity].
  - destruct (waitToColor_buckets (-3)) as (_ & _ & _ & _ & _ & H & _).
    apply H. reflexivity.
Defined.

(* ------------------------------------------------------------------ *)
(** ** Clock display (C9) *)

Lemma Qfloor_unique (x : Q) (z : Z) :
  inject_Z z <= x -> x < inject_Z (z + 1) -> Qfloor x = z.
Proof.
  intros Hlo Hhi.
  pose proof (Qfloor_le x) as H1.
  pose proof (Qlt_floor x) as H2.
  assert (A : (z < Qfloor x + 1)%Z).
  { rewrite Zlt_Qlt. eapply Qle_lt_trans; eauto. }
  assert (B : (Qfloor x < z + 1)%Z).
  { rewrite Zlt_Qlt. eapply Qle_lt_trans; eauto. }
  lia.
Qed.

Lemma Qtrunc_nonneg (x : Q) : 0 <= x -> Qtrunc x = Qfloor x.
Proof.
  intros H. unfold Qtrunc.
  destruct (Qleb_reflect 0 x); [reflexivity|contradiction].
Qed.

Lemma inject_Z_nonneg (z : Z) : (0 <= z)%Z -> 0 <= inject_Z z.
Proof. intros H. change 0 with (inject_Z 0). now rewrite <- Zle_Qle. Qed.

(** [parseInt((n / 60) % 24)] on a non-negative integer [n]. *)
Lemma hour_nonneg (n : Z) :
  (0 <= n)%Z ->
  parseInt (js_rem (inject_Z n / 60) 24) = ((n / 60) mod 24)%Z.
Proof.
  intros Hn.
  unfold parseInt, js_rem.
  set (x := inject_Z n / 60).
  pose proof (inject_Z_nonneg n Hn) as Hn'.
  assert (Hx : 0 <= x).
  { unfold x. apply Qle_shift_div_l; [reflexivity|]. lra. }
  assert (Hfx : Qfloor x = (n / 60)%Z).
  { unfold x. symmetry. apply (Zdiv_Qdiv n 60). }
  assert (Hk : Qtrunc (x / 24) = (n / 60 / 24)%Z).
  { rewrite Qtrunc_nonneg.
    - rewrite Z.div_div by lia.
      rewrite (Zdiv_Qdiv n (60 * 24)).
      apply Qfloor_comp. unfold x.
      change (inject_Z (60 * 24)) with (1440 # 1).
      field.
    - apply Qle_shift_div_l; [reflexivity|]. lra. }
  rewrite Hk.
  set (h := (n / 60)%Z) in *.
  pose proof (Qfloor_le x) as H1.
  pose proof (Qlt_floor x) as H2.
  rewrite Hfx in H1, H2.
  pose proof (Z.mod_pos_bound h 24 ltac:(lia)) as Hm.
  assert (Hdm : (h mod 24 = h - 24 * (h / 24))%Z).
  { rewrite Z.mod_eq by lia. reflexivity. }
  assert (E1 : inject_Z (h mod 24) == inject_Z h - 24 * inject_Z (h / 24)).
  { rewrite Hdm. unfold Z.sub.
    rewrite inject_Z_plus, inject_Z_opp, inject_Z_mult. reflexivity. }
  assert (E2 : inject_Z (h mod 24 + 1)
               == inject_Z (h + 1) - 24 * inject_Z (h / 24)).
  { rewrite !inject_Z_plus, E1. ring. }
  assert (Hr : 0 <= x - 24 * inject_Z (h / 24)).
  { pose proof (inject_Z_nonneg (h mod 24) ltac:(lia)). lra. }
  rewrite Qtrunc_nonneg by exact Hr.
  apply Qfloor_unique; lra.
Qed.

Lemma Math_round_nonneg (t : Q) : 0 <= t -> (0 <= Math_round t)%Z.
Proof.
  intros H. unfold Math_round.
  change 0%Z with (Qfloor 0). apply Qfloor_resp_le. lra.
Qed.

Lemma addZeroFill_two_digits (z : Z) :
  (0 <= z < 100)%Z -> String.length (addZeroFill z) = 2%nat.
Proof.
  intros H.
  assert (A : forallb
                (fun n => (String.length (addZeroFill (Z.of_nat n)) =? 2)%nat)
                (seq 0 100) = true) by (vm_compute; reflexivity).
  rewrite forallb_forall in A.
  specialize (A (Z.to_nat z)).
  rewrite Z2Nat.id in A by lia.
  apply Nat.eqb_eq, A, in_seq. lia.
Qed.

(** C9, as the code has it.  For a clock value [t] from 0 to
    [clockLimit] the reading is hour [floor(round(t) / 60) mod 24] and
    minute [round(t) mod 60]: the hour is taken from the rounded value,
    as the minute is.  Each is padded with a zero to exactly two
    digits. *)
Theorem display_time_rounded (t : Q) :
  0 <= t -> t <= clockLimit ->
  returnAnimationDisplayTime t =
    (addZeroFill ((Math_round t / 60) mod 24), addZeroFill (Math_round t mod 60))
  /\ String.length (fst (returnAnimationDisplayTime t)) = 2%nat
  /\ String.length (snd (returnAnimationDisplayTime t)) = 2%nat.
Proof.
  intros Ht _.
  pose proof (Math_round_nonneg t Ht) as Hn.
  assert (E : returnAnimationDisplayTime t =
              (addZeroFill ((Math_round t / 60) mod 24),
               addZeroFill (Math_round t mod 60))).
  { unfold returnAnimationDisplayTime.
    rewrite hour_nonneg by exact Hn.
    rewrite Z.rem_mod_nonneg by lia. reflexivity. }
  rewrite E. cbn [fst snd]. split; [reflexivity|].
  split; apply addZeroFill_two_digits.
  - pose proof (Z.mod_pos_bound (Math_round t / 60) 24 ltac:(lia)). lia.
  - pose proof (Z.mod_pos_bound (Math_round t) 60 ltac:(lia)). lia.
Qed.

Lemma display_time_rounded_witness :
  returnAnimationDisplayTime (959 # 2) = ("08", "00")%string.
Proof.
  destruct (display_time_rounded (959 # 2)) as [E _].
  - discriminate.
  - discriminate.
  - rewrite E. reflexivity.
Defined.

(** C9, counterexample.  At [t = 479.5] the code shows 08:00, the
    reading of the specification ([floor(t/60)] for the hour) is 07:00. *)
Lemma display_time_not_floor :
  returnAnimationDisplayTime (959 # 2) = ("08", "00")%string
  /\ displayAsSpecified (959 # 2) = ("07", "00")%string
  /\ returnAnimationDisplayTime (959 # 2) <> displayAsSpecified (959 # 2).
Proof.
  split; [reflexivity|]. split; [reflexivity|]. discriminate.
Qed.

(* ------------------------------------------------------------------ *)
(** ** The clock (C7) *)

Lemma tick_below (M t : Q) :
  t <= M -> returnAnimationTime M t = t + clockIncrement.
Proof.
  intros H. unfold returnAnimationTime.
  destruct (Qltb_reflect M t); [lra|reflexivity].
Qed.

Lemma tick_above (M t : Q) : M < t -> returnAnimationTime M t = minTime.
Proof.
  intros H. unfold returnAnimationTime.
  destruct (Qltb_reflect M t); [reflexivity|contradiction].
Qed.

Lemma ticks_observed (M : Q) (n : nat) : observed M (ticks M n minTime).
Proof.
  induction n as [|n IH]; cbn.
  - constructor.
  - apply obs_tick. exact IH.
Qed.

(** As long as the bound is not passed, [n] frames add [n] increments. *)
Lemma ticks_linear (M : Q) (n : nat) :
  forall t, t + inject_Z (Z.of_nat n) * clockIncrement <= M + clockIncrement ->
  ticks M n t == t + inject_Z (Z.of_nat n) * clockIncrement.
Proof.
  unfold ticks.
  induction n as [|n IH]; intros t H.
  - cbn. ring.
  - rewrite Nat.iter_succ_r.
    rewrite Nat2Z.inj_succ in *. unfold Z.succ in *.
    rewrite inject_Z_plus in *.
    assert (Hc : 0 < clockIncrement) by reflexivity.
    pose proof (inject_Z_nonneg (Z.of_nat n) ltac:(lia)) as Hn.
    assert (Hp : 0 <= inject_Z (Z.of_nat n) * clockIncrement).
    { apply Qmult_le_0_compat; lra. }
    cbn [clock_step]. rewrite tick_below.
    + rewrite IH; [ring|]. ring_simplify. ring_simplify in H. lra.
    + ring_simplify in H. lra.
Qed.

Lemma observed_range (M t : Q) :
  minTime <= M -> observed M t -> minTime <= t /\ t <= M + clockIncrement.
Proof.
  intros HM Hobs.
  assert (Hc : 0 < clockIncrement) by reflexivity.
  induction Hobs as [|t Hobs [IH1 IH2]|t v Hobs _ Hlo Hhi]; cbn [clock_step].
  - lra.
  - unfold returnAnimationTime.
    change ((1 # 100) * animationSpeed) with clockIncrement.
    destruct (Qltb_reflect M t); lra.
  - lra.
Qed.

(* ------------------------------------------------------------------ *)
(** ** The clock domain (C3) *)

Lemma length_chars (s : string) : List.length (chars s) = String.length s.
Proof. induction s as [|c s IH]; cbn; congruence. Qed.

Lemma last_chars_not_number (s : string) :
  is_number (last (chars s) VUndef) = false.
Proof.
  induction s as [|c s IH]; [reflexivity|].
  cbn [chars]. destruct s as [|c' s']; [reflexivity|].
  cbn [chars] in *. exact IH.
Qed.

Lemma nth_last (l : list value) :
  nth (List.length l - 1) l VUndef = last l VUndef.
Proof.
  induction l as [|a l IH]; [reflexivity|].
  destruct l as [|b l]; [reflexivity|].
  change (last (a :: b :: l) VUndef) with (last (b :: l) VUndef).
  rewrite <- IH. cbn [List.length].
  rewrite !Nat.sub_succ, !Nat.sub_0_r. reflexivity.
Qed.

(** One step of the scan looks at the last element of an array and
    nothing else. *)
Lemma scanLast_array (maxT : num) (timestamp : value) :
  scanLast maxT timestamp =
  match timestamp with
  | VArr l =>
      match last l VUndef with
      | VNum n => if num_lt maxT n then n else maxT
      | _ => maxT
      end
  | _ => maxT
  end.
Proof.
  unfold scanLast.
  destruct timestamp as [| |b|n|s|l]; cbn [js_length truthy elements];
    try (rewrite ?andb_false_r; reflexivity).
  - (* a string: its last character is not a number *)
    destruct (negb (s =? "")%string && negb (String.length s =? 0)%nat);
      [|reflexivity].
    rewrite nth_last.
    pose proof (last_chars_not_number s) as H.
    destruct (last (chars s) VUndef); try reflexivity; discriminate.
  - destruct l as [|a l]; [reflexivity|].
    cbn [andb negb Nat.eqb List.length].
    rewrite <- (nth_last (a :: l)). cbn [List.length]. reflexivity.
Qed.

(** From a finite running maximum, one step of the scan either meets a
    last timestamp [Infinity] and takes it, or takes the larger of the
    running maximum and the record's finite last timestamp. *)
Lemma scanLast_finite (q0 : Q) (timestamp : value) :
  (endsAtInfinity timestamp /\ scanLast (Fin q0) timestamp = Inf false)
  \/ (~ endsAtInfinity timestamp
      /\ scanLast (Fin q0) timestamp =
         Fin (match lastNumber timestamp with
              | Some q => if Qltb q0 q then q else q0
              | None => q0
              end)).
Proof.
  rewrite scanLast_array. unfold lastNumber, endsAtInfinity.
  destruct timestamp as [| |b|n|s|l];
    try (right; split; [intros (l' & E & _); discriminate | reflexivity]).
  destruct (last l VUndef) as [| | |[q| |[|]]| |] eqn:E;
    try (right; split;
         [intros (l' & [= <-] & E'); rewrite E in E'; discriminate
         | reflexivity]).
  - right. split.
    + intros (l' & [= <-] & E'). rewrite E in E'. discriminate.
    + cbn [num_lt]. destruct (Qltb q0 q); reflexivity.
  - left. split; [exists l; split; [reflexivity | exact E] | reflexivity].
Qed.

(** Once the running maximum is [Infinity] it stays. *)
Lemma scanLast_infinite (timestamp : value) :
  scanLast (Inf false) timestamp = Inf false.
Proof.
  rewrite scanLast_array.
  destruct timestamp as [| |b|n|s|l]; try reflexivity.
  destruct (last l VUndef) as [| | |[q| |[|]]| |]; reflexivity.
Qed.

Lemma scan_infinite (tss : list value) :
  fold_left scanLast tss (Inf false) = Inf false.
Proof.
  induction tss as [|ts tss IH]; [reflexivity|].
  cbn [fold_left]. rewrite scanLast_infinite. exact IH.
Qed.

(** The scan over a list of [timestamp] fields: [Infinity] when one of
    them ends there, otherwise the largest of the start value and the
    finite last timestamps. *)
Lemma scan_bounds (tss : list value) :
  forall q0,
    (fold_left scanLast tss (Fin q0) = Inf false
     /\ exists ts, In ts tss /\ endsAtInfinity ts)
    \/ (exists m,
          fold_left scanLast tss (Fin q0) = Fin m
          /\ (forall ts, In ts tss -> ~ endsAtInfinity ts)
          /\ q0 <= m
          /\ (forall ts q, In ts tss -> lastNumber ts = Some q -> q <= m)
          /\ (m = q0 \/ exists ts, In ts tss /\ lastNumber ts = Some m)).
Proof.
  induction tss as [|ts tss IH]; intros q0; cbn [fold_left].
  - right. exists q0.
    split; [reflexivity|]. split; [intros ? []|]. split; [lra|].
    split; [intros ? ? []|now left].
  - destruct (scanLast_finite q0 ts) as [(Hinf & E)|(Hfin & E)]; rewrite E.
    + left. rewrite scan_infinite.
      split; [reflexivity|]. exists ts. split; [now left|exact Hinf].
    + set (q1 := match lastNumber ts with
                  | Some q => if Qltb q0 q then q else q0
                  | None => q0
                  end) in *.
      assert (Hstep : q0 <= q1
                      /\ (forall q, lastNumber ts = Some q -> q <= q1)
                      /\ (q1 = q0 \/ lastNumber ts = Some q1)).
      { subst q1. destruct (lastNumber ts) as [q|].
        - destruct (Qltb_reflect q0 q).
          + split; [lra|]. split; [intros ? [= <-]; lra | now right].
          + split; [lra|]. split; [intros ? [= <-]; lra | now left].
        - split; [lra|]. split; [discriminate | now left]. }
      destruct Hstep as (S1 & S2 & S3).
      destruct (IH q1) as [(E' & ts' & Hin & Hi)
                          |(m & E' & Hno & Hge & Hub & Hatt)].
      * left. split; [exact E'|]. exists ts'. split; [now right|exact Hi].
      * right. exists m. split; [exact E'|].
        split; [intros ts' [<-|Hin]; [exact Hfin | now apply Hno]|].
        split; [lra|]. split.
        -- intros ts' q [<-|Hin] Hq.
           ++ specialize (S2 q Hq). lra.
           ++ eapply Hub; eauto.
        -- destruct Hatt as [->|(ts' & Hin & Hq)].
           ++ destruct S3 as [->|S3]; [now left|].
              right. exists ts. split; [now left|exact S3].
           ++ right. exists ts'. split; [now right|exact Hq].
Qed.

Lemma dataMaxFromTrips_scan (trips : list (option trip)) :
  dataMaxFromTrips trips =
  fold_left scanLast (map tripTimestamp trips) (Fin 0).
Proof.
  unfold dataMaxFromTrips. generalize (Fin 0).
  induction trips as [|[t|] trips IH]; intros m; cbn [fold_left map];
    [reflexivity| |]; rewrite IH; reflexivity.
Qed.

Lemma dataMaxFromPassengers_scan (passengers : list (option passenger)) :
  dataMaxFromPassengers passengers =
  fold_left scanLast (map passengerTimestamp passengers) (Fin 0).
Proof.
  unfold dataMaxFromPassengers. generalize (Fin 0).
  induction passengers as [|[p|] ps IH]; intros m; cbn [fold_left map];
    [reflexivity| |]; rewrite IH; reflexivity.
Qed.

Lemma dataMaxFromTrips_bounds (trips : list (option trip)) :
  (dataMaxFromTrips trips = Inf false
   /\ exists t, In (Some t) trips /\ endsAtInfinity (trip_timestamp t))
  \/ (exists b,
        dataMaxFromTrips trips = Fin b
        /\ (forall t, In (Some t) trips ->
                      ~ endsAtInfinity (trip_timestamp t))
        /\ 0 <= b
        /\ (forall t q, In (Some t) trips ->
                        lastNumber (trip_timestamp t) = Some q -> q <= b)
        /\ (b = 0
            \/ exists t, In (Some t) trips
                         /\ lastNumber (trip_timestamp t) = Some b)).
Proof.
  rewrite dataMaxFromTrips_scan.
  destruct (scan_bounds (map tripTimestamp trips) 0)
    as [(E & ts & Hin & Hi)|(m & E & Hno & Hge & Hub & Hatt)].
  - left. split; [exact E|].
    apply in_map_iff in Hin. destruct Hin as ([t|] & <- & Hin).
    + exists t. split; assumption.
    + destruct Hi as (l & E' & _). discriminate.
  - right. exists m. split; [exact E|].
    split; [intros t Hin; apply (Hno (trip_timestamp t));
            apply (in_map tripTimestamp _ _ Hin)|].
    split; [exact Hge|]. split.
    + intros t q Hin Hq. apply (Hub (trip_timestamp t)); [|exact Hq].
      apply (in_map tripTimestamp _ _ Hin).
    + destruct Hatt as [E'|(ts & Hin & Hq)]; [now left|right].
      apply in_map_iff in Hin. destruct Hin as ([t|] & <- & Hin).
      * exists t. split; assumption.
      * discriminate.
Qed.

Lemma dataMaxFromPassengers_bounds (passengers : list (option passenger)) :
  (dataMaxFromPassengers passengers = Inf false
   /\ exists p, In (Some p) passengers /\ endsAtInfinity (psg_timestamp p))
  \/ (exists c,
        dataMaxFromPassengers passengers = Fin c
        /\ (forall p, In (Some p) passengers ->
                      ~ endsAtInfinity (psg_timestamp p))
        /\ 0 <= c
        /\ (forall p q, In (Some p) passengers ->
                        lastNumber (psg_timestamp p) = Some q -> q <= c)
        /\ (c = 0
            \/ exists p, In (Some p) passengers
                         /\ lastNumber (psg_timestamp p) = Some c)).
Proof.
  rewrite dataMaxFromPassengers_scan.
  destruct (scan_bounds (map passengerTimestamp passengers) 0)
    as [(E & ts & Hin & Hi)|(m & E & Hno & Hge & Hub & Hatt)].
  - left. split; [exact E|].
    apply in_map_iff in Hin. destruct Hin as ([p|] & <- & Hin).
    + exists p. split; assumption.
    + destruct Hi as (l & E' & _). discriminate.
  - right. exists m. split; [exact E|].
    split; [intros p Hin; apply (Hno (psg_timestamp p));
            apply (in_map passengerTimestamp _ _ Hin)|].
    split; [exact Hge|]. split.
    + intros p q Hin Hq. apply (Hub (psg_timestamp p)); [|exact Hq].
      apply (in_map passengerTimestamp _ _ Hin).
    + destruct Hatt as [E'|(ts & Hin & Hq)]; [now left|right].
      apply in_map_iff in Hin. destruct Hin as ([p|] & <- & Hin).
      * exists p. split; assumption.
      * discriminate.
Qed.

(** With finite scans the candidate is finite and above [minTime], so
    it is the bound. *)
Lemma maxTime_candidate (trips : list (option trip))
                        (passengers : list (option passenger)) (b c : Q) :
  dataMaxFromTrips trips = Fin b ->
  dataMaxFromPassengers passengers = Fin c ->
  maxTime trips passengers = qmax (qmax (minTime + 60) b) c.
Proof.
  intros Eb Ec. unfold maxTime, candidate. rewrite Eb, Ec.
  cbn [Math_max].
  pose proof (qmax_ub_l (minTime + 60) b) as H1.
  pose proof (qmax_ub_l (qmax (minTime + 60) b) c) as H2.
  set (m := qmax _ c) in *.
  destruct (Qltb_reflect minTime m) as [_|n]; [reflexivity|].
  exfalso. apply n. lra.
Qed.

(** An infinite scan makes [Number.isFinite(candidate)] fail. *)
Lemma maxTime_infinite_trips (trips : list (option trip))
                             (passengers : list (option passenger)) :
  dataMaxFromTrips trips = Inf false ->
  maxTime trips passengers = minTime + 60.
Proof.
  intros E. unfold maxTime, candidate. rewrite E.
  destruct (dataMaxFromPassengers passengers) as [c| |[|]]; reflexivity.
Qed.

Lemma maxTime_infinite_passengers (trips : list (option trip))
                                  (passengers : list (option passenger)) :
  dataMaxFromPassengers passengers = Inf false ->
  maxTime trips passengers = minTime + 60.
Proof.
  intros E. unfold maxTime, candidate. rewrite E.
  destruct (dataMaxFromTrips trips) as [b| |[|]]; reflexivity.
Qed.

Lemma maxTime_floor (trips : list (option trip))
                    (passengers : list (option passenger)) :
  minTime + 60 <= maxTime trips passengers.
Proof.
  destruct (dataMaxFromTrips_bounds trips) as [(Eb & _)|(b & Eb & _)].
  { rewrite (maxTime_infinite_trips _ _ Eb). lra. }
  destruct (dataMaxFromPassengers_bounds passengers)
    as [(Ec & _)|(c & Ec & _)].
  { rewrite (maxTime_infinite_passengers _ _ Ec). lra. }
  rewrite (maxTime_candidate _ _ b c Eb Ec).
  pose proof (qmax_ub_l (minTime + 60) b) as H1.
  pose proof (qmax_ub_l (qmax (minTime + 60) b) c) as H2.
  lra.
Qed.

(** A record that ends at [Infinity] sends the bound back to
    [minTime + 60]. *)
Lemma maxTime_infinite (trips : list (option trip))
                       (passengers : list (option passenger)) :
  (exists t, In (Some t) trips /\ endsAtInfinity (trip_timestamp t))
  \/ (exists p, In (Some p) passengers /\ endsAtInfinity (psg_timestamp p)) ->
  maxTime trips passengers = minTime + 60.
Proof.
  intros [(t & Hin & Hi)|(p & Hin & Hi)].
  - destruct (dataMaxFromTrips_bounds trips)
      as [(Eb & _)|(b & _ & Hno & _)].
    + apply maxTime_infinite_trips, Eb.
    + destruct (Hno t Hin Hi).
  - destruct (dataMaxFromPassengers_bounds passengers)
      as [(Ec & _)|(c & _ & Hno & _)].
    + apply maxTime_infinite_passengers, Ec.
    + destruct (Hno p Hin Hi).
Qed.

(** A collection whose records all occur in another one does not scan
    higher. *)
Lemma dataMaxFromTrips_incl (trips trips' : list (option trip)) (b b' : Q) :
  dataMaxFromTrips trips = Fin b -> dataMaxFromTrips trips' = Fin b' ->
  (forall t, In (Some t) trips -> In (Some t) trips') ->
  b <= b'.
Proof.
  intros Eb Eb' Hincl.
  destruct (dataMaxFromTrips_bounds trips)
    as [(E & _)|(x & E & _ & _ & _ & Hatt)]; [congruence|].
  destruct (dataMaxFromTrips_bounds trips')
    as [(E' & _)|(x' & E' & _ & Hge & Hub & _)]; [congruence|].
  rewrite Eb in E. injection E as <-.
  rewrite Eb' in E'. injection E' as <-.
  destruct Hatt as [->|(t & Hin & Hq)]; [exact Hge|].
  apply (Hub t _ (Hincl t Hin) Hq).
Qed.

Lemma dataMaxFromPassengers_incl
    (passengers passengers' : list (option passenger)) (c c' : Q) :
  dataMaxFromPassengers passengers = Fin c ->
  dataMaxFromPassengers passengers' = Fin c' ->
  (forall p, In (Some p) passengers -> In (Some p) passengers') ->
  c <= c'.
Proof.
  intros Ec Ec' Hincl.
  destruct (dataMaxFromPassengers_bounds passengers)
    as [(E & _)|(x & E & _ & _ & _ & Hatt)]; [congruence|].
  destruct (dataMaxFromPassengers_bounds passengers')
    as [(E' & _)|(x' & E' & _ & Hge & Hub & _)]; [congruence|].
  rewrite Ec in E. injection E as <-.
  rewrite Ec' in E'. injection E' as <-.
  destruct Hatt as [->|(p & Hin & Hq)]; [exact Hge|].
  apply (Hub p _ (Hincl p Hin) Hq).
Qed.

(** C3, as the code has it.  The upper bound of the clock is never
    below [minTime + 60].  When no record ends at [Infinity], it is the
    largest of [minTime + 60], the last timestamps of the trips and the
    last timestamps of the passenger events (records without a numeric
    last timestamp are ignored): at least every such timestamp, and
    equal to one of them; and when no passenger event is later than the
    trips, it is the bound the trips alone give.  When the last
    timestamp of a trip or of a passenger event is [Infinity], the
    candidate fails [Number.isFinite] and the bound is [minTime + 60].
    Without trips and passengers it is [minTime + 60]. *)
Theorem maxTime_spec (trips : list (option trip))
                     (passengers : list (option passenger)) :
  let M := maxTime trips passengers in
  minTime + 60 <= M
  /\ ((forall t, In (Some t) trips -> ~ endsAtInfinity (trip_timestamp t)) ->
      (forall p, In (Some p) passengers ->
                 ~ endsAtInfinity (psg_timestamp p)) ->
      (forall t q, In (Some t) trips ->
                   lastNumber (trip_timestamp t) = Some q -> q <= M)
      /\ (forall p q, In (Some p) passengers ->
                      lastNumber (psg_timestamp p) = Some q -> q <= M)
      /\ (M = minTime + 60
          \/ (exists t, In (Some t) trips
                        /\ lastNumber (trip_timestamp t) = Some M)
          \/ (exists p, In (Some p) passengers
                        /\ lastNumber (psg_timestamp p) = Some M))
      /\ (forall u, upperBoundAsSpecified trips = Fin u ->
                    num_le (dataMaxFromPassengers passengers) (Fin u) = true ->
                    M == u))
  /\ ((exists t, In (Some t) trips /\ endsAtInfinity (trip_timestamp t))
      \/ (exists p, In (Some p) passengers
                    /\ endsAtInfinity (psg_timestamp p)) ->
      M = minTime + 60)
  /\ maxTime [] [] = minTime + 60.
Proof.
  cbn zeta.
  split; [apply maxTime_floor|].
  split; [|split; [|reflexivity]].
  - intros HT HP.
    destruct (dataMaxFromTrips_bounds trips)
      as [(_ & t & Hin & Hi)|(b & Eb & _ & Hb & Tub & Tatt)].
    { destruct (HT t Hin Hi). }
    destruct (dataMaxFromPassengers_bounds passengers)
      as [(_ & p & Hin & Hi)|(c & Ec & _ & Hc & Pub & Patt)].
    { destruct (HP p Hin Hi). }
    rewrite (maxTime_candidate _ _ b c Eb Ec).
    set (a := minTime + 60) in *.
    pose proof (qmax_ub_l a b). pose proof (qmax_ub_r a b).
    pose proof (qmax_ub_l (qmax a b) c). pose proof (qmax_ub_r (qmax a b) c).
    split; [|split; [|split]].
    + intros t q Hin Hq. specialize (Tub t q Hin Hq). lra.
    + intros p q Hin Hq. specialize (Pub p q Hin Hq). lra.
    + destruct (qmax_cases (qmax a b) c) as [E|E]; rewrite E.
      * destruct (qmax_cases a b) as [E'|E']; rewrite E'.
        -- now left.
        -- destruct Tatt as [Z|Ex]; [|right; left; exact Ex].
           exfalso. rewrite E', Z in *. unfold a, minTime in *. lra.
      * destruct Patt as [Z|Ex]; [|right; right; exact Ex].
        exfalso. rewrite E, Z in *. unfold a, minTime in *. lra.
    + intros u Hu Hle. unfold upperBoundAsSpecified in Hu.
      rewrite Eb in Hu. cbn [Math_max] in Hu. injection Hu as <-.
      rewrite Ec in Hle. cbn [num_le] in Hle. apply Qleb_true in Hle.
      fold a in Hle |- *.
      unfold qmax at 1. destruct (Qleb_reflect (qmax a b) c); lra.
  - apply maxTime_infinite.
Qed.

Lemma maxTime_spec_witness :
  920 <= maxTime
           [Some (mkTrip VUndef VUndef (VArr [VNum (Fin 0); VNum (Fin 920)]))]
           []
  /\ maxTime
       [Some (mkTrip VUndef VUndef (VArr [VNum (Fin 920)]));
        Some (mkTrip VUndef VUndef (VArr [VNum (Inf false)]))]
       [] = minTime + 60.
Proof.
  split.
  - destruct (maxTime_spec
                [Some (mkTrip VUndef VUndef
                              (VArr [VNum (Fin 0); VNum (Fin 920)]))]
                []) as (_ & H & _).
    destruct H as (H & _).
    + intros t [[= <-]|[]] (l & [= <-] & E). discriminate.
    + intros p [].
    + apply (H (mkTrip VUndef VUndef (VArr [VNum (Fin 0); VNum (Fin 920)]))).
      * now left.
      * reflexivity.
  - destruct (maxTime_spec
                [Some (mkTrip VUndef VUndef (VArr [VNum (Fin 920)]));
                 Some (mkTrip VUndef VUndef (VArr [VNum (Inf false)]))]
                []) as (_ & _ & H & _).
    apply H. left.
    exists (mkTrip VUndef VUndef (VArr [VNum (Inf false)])).
    split; [right; now left|].
    exists [VNum (Inf false)]. split; reflexivity.
Defined.

(** C3, counterexample.  With no trip and one passenger event called at
    minute 1000 the slider ends at 1000, not at [minTime + 60] = 480:
    the passenger events do take part. *)
Lemma maxTime_counts_passengers :
  maxTime [] [Some latePassenger] == 1000
  /\ upperBoundAsSpecified [] = Fin (minTime + 60)
  /\ ~ maxTime [] [Some latePassenger] == minTime + 60.
Proof.
  split; [reflexivity|]. split; [reflexivity|]. discriminate.
Qed.

(* ------------------------------------------------------------------ *)
(** ** The clock wraps (C7) *)

(** C7, as the code has it.  A tick from a value above the upper bound
    gives exactly [minTime]; a tick from a value up to the bound adds
    one increment, so the frame that follows a value within one
    increment of the bound observes a value above it.  Every value a
    frame observes lies between [minTime] and the bound plus one
    increment. *)
Theorem clock_wraps (trips : list (option trip))
                    (passengers : list (option passenger)) (t : Q) :
  let M := maxTime trips passengers in
  (M < t -> clock_step M t Tick = minTime)
  /\ (t <= M -> clock_step M t Tick = t + clockIncrement)
  /\ (observed M t -> minTime <= t /\ t <= M + clockIncrement).
Proof.
  cbn zeta. split; [|split].
  - apply tick_above.
  - apply tick_below.
  - apply observed_range.
    pose proof (maxTime_floor trips passengers). lra.
Qed.

Lemma clock_wraps_witness :
  clock_step (maxTime [] []) (480 + clockIncrement) Tick = minTime
  /\ clock_step (maxTime [] []) 480 Tick = 480 + clockIncrement
  /\ minTime <= clock_step (maxTime [] []) minTime Tick.
Proof.
  split; [|split].
  - apply (proj1 (clock_wraps [] [] (480 + clockIncrement))). reflexivity.
  - apply (proj1 (proj2 (clock_wraps [] [] 480))). discriminate.
  - apply (proj2 (proj2 (clock_wraps [] [] (clock_step (maxTime [] []) minTime Tick)))).
    apply obs_tick, obs_init.
Defined.

(** C7, counterexample.  With the default domain (upper bound 480),
    12001 frames after the start the clock reads 480.005: a frame
    observes a value above the upper bound before the clock wraps. *)
Lemma clock_overshoot_observed :
  observed (maxTime [] []) (ticks (maxTime [] []) (Z.to_nat 12001) minTime)
  /\ maxTime [] [] < ticks (maxTime [] []) (Z.to_nat 12001) minTime.
Proof.
  split.
  - apply ticks_observed.
  - rewrite ticks_linear.
    + vm_compute. reflexivity.
    + vm_compute. discriminate.
Qed.

(* ------------------------------------------------------------------ *)
(** ** Visible passengers (C2) *)

Lemma visiblePassengers_app (xs ys : list info) (time : Q) :
  visiblePassengers (xs ++ ys) time =
  visiblePassengers xs time ++ visiblePassengers ys time.
Proof.
  induction xs as [|i xs IH]; [reflexivity|].
  cbn [app visiblePassengers].
  destruct (visiblePassenger time i); rewrite IH; reflexivity.
Qed.

(** The test of one resolved passenger with numeric times and a
    coordinate array. *)
Lemma visiblePassenger_window (c p : Q) (loc : list value) (time : Q) :
  visiblePassenger time (mkInfo (VNum (Fin c)) (VNum (Fin p)) (VArr loc)) =
  if Qleb c time && Qleb time p
  then Some (mkVisible (VArr loc) (VNum (Fin (p - c))))
  else None.
Proof. reflexivity. Qed.

(** C2.  A resolved passenger with numeric [call], numeric [pickupTime]
    and a pickup coordinate contributes to the visible set at time [t]
    exactly when [call <= t <= pickupTime], both ends included; its
    entry then carries the location and [wait = pickupTime - call],
    whatever [t] is; outside the window it contributes nothing.  The
    other passengers of the collection do not change this. *)
Theorem visible_iff_in_window
    (before after : list info) (c p : Q) (loc : list value) (t : Q) :
  let i := mkInfo (VNum (Fin c)) (VNum (Fin p)) (VArr loc) in
  let shown := mkVisible (VArr loc) (VNum (Fin (p - c))) in
  (c <= t /\ t <= p ->
     visiblePassengers (before ++ i :: after) t =
     visiblePassengers before t ++ shown :: visiblePassengers after t)
  /\ (~ (c <= t /\ t <= p) ->
     visiblePassengers (before ++ i :: after) t =
     visiblePassengers before t ++ visiblePassengers after t)
  /\ (visiblePassenger t i <> None <-> c <= t /\ t <= p)
  /\ (forall v, visiblePassenger t i = Some v -> vis_wait v = VNum (Fin (p - c))).
Proof.
  cbn zeta.
  rewrite visiblePassengers_app. cbn [visiblePassengers].
  rewrite visiblePassenger_window.
  assert (W : forall v,
             (if Qleb c t && Qleb t p
              then Some (mkVisible (VArr loc) (VNum (Fin (p - c))))
              else None) = Some v ->
             vis_wait v = VNum (Fin (p - c))).
  { intros v. destruct (Qleb c t && Qleb t p); [|discriminate].
    intros [= <-]. reflexivity. }
  destruct (Qleb_reflect c t) as [Hc|Hc];
    destruct (Qleb_reflect t p) as [Hp|Hp]; cbn [andb] in *;
    (split; [|split; [|split; [split|exact W]]]);
    try tauto; try congruence; try reflexivity; try discriminate.
Qed.

Lemma visible_iff_in_window_witness :
  visiblePassengers
    [mkInfo (VNum (Fin 100)) (VNum (Fin 130)) (VArr [VNum (Fin 127); VNum (Fin 37)])]
    130
  = [mkVisible (VArr [VNum (Fin 127); VNum (Fin 37)]) (VNum (Fin (130 - 100)))]
  /\ visiblePassengers
       [mkInfo (VNum (Fin 100)) (VNum (Fin 130)) (VArr [VNum (Fin 127); VNum (Fin 37)])]
       131
     = [].
Proof.
  split.
  - apply (proj1 (visible_iff_in_window [] [] 100 130
                    [VNum (Fin 127); VNum (Fin 37)] 130)).
    split; discriminate.
  - apply (proj1 (proj2 (visible_iff_in_window [] [] 100 130
                           [VNum (Fin 127); VNum (Fin 37)] 131))).
    intros [_ H]. apply H. reflexivity.
Defined.

(* ------------------------------------------------------------------ *)
(** ** Pickup-time resolution (C5) *)

Lemma same_value_zero_trans (a b c : value) :
  same_value_zero a b = true -> same_value_zero b c = true ->
  same_value_zero a c = true.
Proof.
  destruct a as [| |x|[x| |x]|x|x], b as [| |y|[y| |y]|y|y]; cbn;
    try discriminate;
    destruct c as [| |z|[z| |z]|z|z]; cbn; try discriminate; try reflexivity.
  - intros H1 H2. apply Bool.eqb_prop in H1, H2. subst. apply Bool.eqb_reflx.
  - intros H1 H2. apply Qeq_bool_iff in H1, H2. apply Qeq_bool_iff.
    now rewrite H1.
  - intros H1 H2. apply Bool.eqb_prop in H1, H2. subst. apply Bool.eqb_reflx.
  - intros H1 H2. apply String.eqb_eq in H1, H2. subst. apply String.eqb_refl.
Qed.

Lemma map_get_app (m : pid_map) (k : value) (t : trip) (pid : value) :
  map_get (m ++ [(k, t)]) pid =
  match map_get m pid with
  | Some u => Some u
  | None => if same_value_zero k pid then Some t else None
  end.
Proof.
  unfold map_get.
  induction m as [|[k' t'] m IH]; cbn [app find fst snd].
  - destruct (same_value_zero k pid); reflexivity.
  - destruct (same_value_zero k' pid); [reflexivity|exact IH].
Qed.

Lemma map_has_get (m : pid_map) (k pid : value) :
  map_has m k = true -> same_value_zero k pid = true ->
  map_get m pid <> None.
Proof.
  unfold map_has, map_get. intros H1 H2.
  apply existsb_exists in H1. destruct H1 as ([k' t'] & Hin & Hk).
  cbn [fst] in Hk.
  pose proof (same_value_zero_trans _ _ _ Hk H2) as H3.
  destruct (find _ m) as [kv|] eqn:E; [discriminate|].
  apply (find_none _ _ E) in Hin. cbn [fst] in Hin. congruence.
Qed.

(** The map built from the trips returns, for every id, the first trip
    with that id. *)
Lemma tripByPid_from (trips : list (option trip)) (pid : value) :
  forall m : pid_map,
    map_get
      (fold_left
         (fun m t =>
            match t with
            | None => m
            | Some t =>
                let pid := trip_passenger_id t in
                if nullish pid then m
                else if map_has m pid then m
                else m ++ [(pid, t)]
            end)
         trips m) pid =
    match map_get m pid with
    | Some u => Some u
    | None => firstTrip pid trips
    end.
Proof.
  induction trips as [|[t|] trips IH]; intros m; cbn [fold_left firstTrip].
  - destruct (map_get m pid); reflexivity.
  - cbn zeta.
    destruct (nullish (trip_passenger_id t)) eqn:En; cbn [negb andb].
    + apply IH.
    + destruct (map_has m (trip_passenger_id t)) eqn:Eh.
      * rewrite IH.
        destruct (map_get m pid) as [u|] eqn:Eg; [reflexivity|].
        destruct (same_value_zero (trip_passenger_id t) pid) eqn:Es;
          [|reflexivity].
        exfalso. exact (map_has_get _ _ _ Eh Es Eg).
      * rewrite IH, map_get_app.
        destruct (map_get m pid); [reflexivity|].
        destruct (same_value_zero (trip_passenger_id t) pid); reflexivity.
  - apply IH.
Qed.

Lemma tripByPid_first (trips : list (option trip)) (pid : value) :
  map_get (tripByPid trips) pid = firstTrip pid trips.
Proof.
  unfold tripByPid. rewrite tripByPid_from. reflexivity.
Qed.

Lemma scanRoute_step (lon lat : value) (ts : list value)
                     (pt : value) (pts : list value) (i : nat) :
  scanRoute lon lat ts (pt :: pts) i =
  if atPickup lon lat pt
  then (if is_number (nth i ts VUndef) then nth i ts VUndef else VNull)
  else scanRoute lon lat ts pts (S i).
Proof.
  cbn [scanRoute]. unfold atPickup.
  destruct (is_array pt); cbn [negb orb andb]; [|reflexivity].
  destruct (List.length (elements pt)) as [|[|n]]; reflexivity.
Qed.


Lemma scanRoute_first (lon lat : value) (ts pts : list value) :
  forall i0 i,
    atPickup lon lat (nth i pts VUndef) = true ->
    (forall j, (j < i)%nat -> atPickup lon lat (nth j pts VUndef) = false) ->
    scanRoute lon lat ts pts i0 =
    if is_number (nth (i0 + i) ts VUndef) then nth (i0 + i) ts VUndef else VNull.
Proof.
  induction pts as [|pt pts IH]; intros i0 i Hi Hbefore.
  - destruct i; discriminate.
  - rewrite scanRoute_step. destruct i as [|i].
    + cbn [nth] in Hi. rewrite Hi, Nat.add_0_r. reflexivity.
    + pose proof (Hbefore 0%nat ltac:(lia)) as H0.
      cbn [nth] in H0. rewrite H0.
      rewrite (IH (S i0) i).
      * replace (S i0 + i)%nat with (i0 + S i)%nat by lia. reflexivity.
      * exact Hi.
      * intros j Hj. apply (Hbefore (S j)). lia.
Qed.



(* ------------------------------------------------------------------ *)
(** ** The segment search on numeric timestamps *)

Lemma arr_get_in_bounds (m : access) (l : list value) (i : nat) :
  (i < List.length l)%nat -> arr_get m l i = Ok (nth i l VUndef).
Proof.
  intros H. unfold arr_get.
  destruct (nth_error l i) as [v|] eqn:E.
  - now rewrite (nth_error_nth _ _ VUndef E).
  - apply nth_error_None in E. lia.
Qed.

Lemma nth_stamp (qs : list Q) (i : nat) :
  (i < List.length qs)%nat -> nth i (map stamp qs) VUndef = stamp (nth i qs 0).
Proof.
  intros H. rewrite (nth_indep _ VUndef (stamp 0)) by now rewrite length_map.
  apply (map_nth stamp).
Qed.

Lemma nth_point (pts : list (Q * Q)) (i : nat) :
  (i < List.length pts)%nat ->
  nth i (map point pts) VUndef = point (nth i pts (0, 0)).
Proof.
  intros H. rewrite (nth_indep _ VUndef (point (0, 0))) by now rewrite length_map.
  apply (map_nth point).
Qed.

Lemma get_stamp (m : access) (qs : list Q) (i : nat) :
  (i < List.length qs)%nat -> arr_get m (map stamp qs) i = Ok (stamp (nth i qs 0)).
Proof.
  intros H. rewrite arr_get_in_bounds by now rewrite length_map.
  now rewrite nth_stamp.
Qed.

Lemma get_point (m : access) (pts : list (Q * Q)) (i : nat) :
  (i < List.length pts)%nat ->
  arr_get m (map point pts) i = Ok (point (nth i pts (0, 0))).
Proof.
  intros H. rewrite arr_get_in_bounds by now rewrite length_map.
  now rewrite nth_point.
Qed.

(** One iteration of the search on numeric timestamps. *)
Lemma segmentLoop_step (m : access) (qs : list Q) (t : Q) (fuel k idx : nat) :
  (S k < List.length qs)%nat ->
  segmentLoop m (map stamp qs) t (S fuel) k idx =
  if inSegment qs t k then Ok k
  else segmentLoop m (map stamp qs) t fuel (S k)
         (if Qleb (nth (List.length qs - 1) qs 0) t
          then (List.length qs - 2)%nat else idx).
Proof.
  intros Hk. cbn [segmentLoop].
  rewrite get_stamp by lia. cbn [bind stamp].
  rewrite Nat.add_1_r, get_stamp by lia. cbn [bind stamp].
  unfold inSegment. cbn [num_le num_lt].
  destruct (Qleb (nth k qs 0) t && Qltb t (nth (S k) qs 0)); [reflexivity|].
  rewrite length_map, get_stamp by lia. reflexivity.
Qed.

(** The search stops at the first segment that contains [t]. *)
Lemma segmentLoop_found (m : access) (qs : list Q) (t : Q) (j : nat) :
  forall fuel k idx,
    (k <= j)%nat -> (j < k + fuel)%nat -> (S j < List.length qs)%nat ->
    (forall i, (k <= i < j)%nat -> inSegment qs t i = false) ->
    inSegment qs t j = true ->
    segmentLoop m (map stamp qs) t fuel k idx = Ok j.
Proof.
  induction fuel as [|fuel IH]; intros k idx Hkj Hj Hlen Hbefore Hhit; [lia|].
  rewrite segmentLoop_step by lia.
  destruct (Nat.eq_dec k j) as [->|Hne].
  - now rewrite Hhit.
  - rewrite (Hbefore k) by lia.
    apply IH; try lia; [|exact Hhit].
    intros i Hi. apply Hbefore. lia.
Qed.

(** Without such a segment the search ends with the final segment when
    [t] is at or after the last timestamp, with the initial index
    otherwise. *)
Lemma segmentLoop_not_found (m : access) (qs : list Q) (t : Q) :
  forall fuel k idx,
    (k + fuel < List.length qs)%nat ->
    (forall i, (k <= i < k + fuel)%nat -> inSegment qs t i = false) ->
    segmentLoop m (map stamp qs) t fuel k idx =
    Ok (match fuel with
        | O => idx
        | S _ => if Qleb (nth (List.length qs - 1) qs 0) t
                 then (List.length qs - 2)%nat else idx
        end).
Proof.
  induction fuel as [|fuel IH]; intros k idx Hlen Hnone; [reflexivity|].
  rewrite segmentLoop_step by lia.
  rewrite (Hnone k) by lia.
  rewrite IH; [|lia|intros i Hi; apply Hnone; lia].
  destruct fuel; [reflexivity|].
  destruct (Qleb (nth (List.length qs - 1) qs 0) t); reflexivity.
Qed.

Lemma segmentLoop_total (m : access) (qs : list Q) (t : Q) :
  forall fuel k idx,
    (k + fuel < List.length qs)%nat ->
    exists i, segmentLoop m (map stamp qs) t fuel k idx = Ok i
              /\ (i = idx \/ S i < List.length qs)%nat.
Proof.
  induction fuel as [|fuel IH]; intros k idx Hlen.
  - exists idx. split; [reflexivity|now left].
  - rewrite segmentLoop_step by lia.
    destruct (inSegment qs t k).
    + exists k. split; [reflexivity|right; lia].
    + destruct (IH (S k) (if Qleb (nth (List.length qs - 1) qs 0) t
                          then (List.length qs - 2)%nat else idx)
                  ltac:(lia)) as (i & E & Hi).
      exists i. split; [exact E|].
      destruct Hi as [->|Hi]; [|now right].
      destruct (Qleb (nth (List.length qs - 1) qs 0) t); [right; lia|now left].
Qed.

(* ------------------------------------------------------------------ *)
(** ** Reads stay within the arrays (C10) *)

Lemma clampIndex_lt (i len : nat) : (1 <= len)%nat -> (clampIndex i len < len)%nat.
Proof. unfold clampIndex. lia. Qed.

Lemma segmentLoop_strict (ts : list value) (time : Q) :
  forall fuel k idx,
    (k + fuel < List.length ts)%nat ->
    segmentLoop Strict ts time fuel k idx
    = segmentLoop Lenient ts time fuel k idx.
Proof.
  induction fuel as [|fuel IH]; intros k idx H; [reflexivity|].
  cbn [segmentLoop].
  rewrite !(arr_get_in_bounds _ ts k) by lia.
  rewrite !(arr_get_in_bounds _ ts (k + 1)) by lia.
  rewrite !(arr_get_in_bounds _ ts (List.length ts - 1)) by lia.
  cbn [bind].
  match goal with
  | |- bind ?h _ = bind ?h _ => destruct h as [[|]|e]
  end; cbn [bind]; try reflexivity.
  destruct (time_ge time (nth (List.length ts - 1) ts VUndef)) as [ge|e];
    cbn [bind]; [|reflexivity].
  apply IH. lia.
Qed.

Lemma currentPosition_strict (rt ts : list value) (time : Q) :
  (1 <= List.length rt)%nat -> (1 <= List.length ts)%nat ->
  currentPosition Strict rt ts time = currentPosition Lenient rt ts time.
Proof.
  intros Hrt Hts. unfold currentPosition.
  rewrite segmentLoop_strict by lia.
  destruct (segmentLoop Lenient ts time (List.length ts - 1) 0 0) as [idx|e];
    cbn [bind]; [|reflexivity].
  rewrite !(arr_get_in_bounds _ rt) by now apply clampIndex_lt.
  rewrite !(arr_get_in_bounds _ ts) by now apply clampIndex_lt.
  reflexivity.
Qed.

Lemma in_bounds_bind {A B : Type} (c : outcome A) (k : A -> outcome B) :
  in_bounds c -> (forall a, in_bounds (k a)) -> in_bounds (bind c k).
Proof.
  unfold in_bounds. destruct c as [a|e]; cbn [bind]; intros Hc Hk.
  - apply Hk.
  - intros [= ->]. now apply Hc.
Qed.

Lemma in_bounds_lenient_get (l : list value) (i : nat) :
  in_bounds (arr_get Lenient l i).
Proof. unfold in_bounds, arr_get. destruct (nth_error l i); discriminate. Qed.

Lemma in_bounds_to_number (v : value) : in_bounds (to_number v).
Proof. unfold in_bounds. destruct v; discriminate. Qed.

Lemma in_bounds_prop_get (v : value) (i : nat) : in_bounds (prop_get v i).
Proof. unfold in_bounds. destruct v; discriminate. Qed.

Lemma in_bounds_ok {A : Type} (a : A) : in_bounds (Ok a).
Proof. discriminate. Qed.

Ltac in_bounds_step :=
  match goal with
  | |- in_bounds (Ok _) => apply in_bounds_ok
  | |- in_bounds (arr_get Lenient _ _) => apply in_bounds_lenient_get
  | |- in_bounds (to_number _) => apply in_bounds_to_number
  | |- in_bounds (prop_get _ _) => apply in_bounds_prop_get
  | |- in_bounds (bind _ _) => apply in_bounds_bind; [|intro]
  | |- in_bounds (match ?x with _ => _ end) => destruct x
  | |- in_bounds (if ?x then _ else _) => destruct x
  end.

Lemma in_bounds_segmentLoop (ts : list value) (time : Q) :
  forall fuel k idx, in_bounds (segmentLoop Lenient ts time fuel k idx).
Proof.
  induction fuel as [|fuel IH]; intros k idx; cbn [segmentLoop].
  - apply in_bounds_ok.
  - unfold time_ge. repeat in_bounds_step. apply IH.
Qed.

Lemma in_bounds_currentPosition (rt ts : list value) (time : Q) :
  in_bounds (currentPosition Lenient rt ts time).
Proof.
  unfold currentPosition, lerp.
  apply in_bounds_bind; [apply in_bounds_segmentLoop|intro].
  repeat in_bounds_step.
Qed.

Lemma in_bounds_matchArc (time : Q) (t : option trip) :
  in_bounds (matchArc Lenient time t).
Proof.
  unfold matchArc. destruct (skipped t); [apply in_bounds_ok|].
  destruct t as [t|]; [|apply in_bounds_ok].
  repeat first [apply in_bounds_currentPosition | in_bounds_step].
Qed.

Lemma in_bounds_occupiedArc (time : Q) (t : option trip) :
  in_bounds (occupiedArc Lenient time t).
Proof.
  unfold occupiedArc. destruct (skipped t); [apply in_bounds_ok|].
  destruct t as [t|]; [|apply in_bounds_ok].
  repeat first [apply in_bounds_currentPosition | in_bounds_step].
Qed.

Lemma matchArc_strict (pid : value) (rt ts : list value) (time : Q) :
  (2 <= List.length rt)%nat -> (2 <= List.length ts)%nat ->
  matchArc Strict time (Some (mkTrip pid (VArr rt) (VArr ts)))
  = matchArc Lenient time (Some (mkTrip pid (VArr rt) (VArr ts))).
Proof.
  intros Hrt Hts. unfold matchArc.
  destruct (skipped _); [reflexivity|].
  cbn [trip_route trip_timestamp elements].
  rewrite !(arr_get_in_bounds _ ts) by lia.
  rewrite !(arr_get_in_bounds _ rt) by lia.
  rewrite currentPosition_strict by lia. reflexivity.
Qed.

Lemma occupiedArc_strict (pid : value) (rt ts : list value) (time : Q) :
  (2 <= List.length rt)%nat -> (2 <= List.length ts)%nat ->
  occupiedArc Strict time (Some (mkTrip pid (VArr rt) (VArr ts)))
  = occupiedArc Lenient time (Some (mkTrip pid (VArr rt) (VArr ts))).
Proof.
  intros Hrt Hts. unfold occupiedArc.
  destruct (skipped _); [reflexivity|].
  cbn [trip_route trip_timestamp elements].
  rewrite !(arr_get_in_bounds _ ts) by lia.
  rewrite !(arr_get_in_bounds _ rt) by lia.
  rewrite currentPosition_strict by lia. reflexivity.
Qed.

(** C10, as the code has it.  For a trip whose route and timestamp
    are arrays of at least two elements each, of equal length or not,
    every read of an element of the route and of the timestamps made
    while building its dispatch arc and its occupied arc is within the
    array: run with a bounds check on these reads, the code reports no
    read past the end and computes the same result.  The reads of the
    coordinates inside a route point are not among them. *)
Theorem arc_reads_in_bounds (pid : value) (rt ts : list value) (time : Q) :
  (2 <= List.length rt)%nat -> (2 <= List.length ts)%nat ->
  let t := Some (mkTrip pid (VArr rt) (VArr ts)) in
  in_bounds (matchArc Strict time t)
  /\ in_bounds (occupiedArc Strict time t)
  /\ in_bounds (currentPosition Strict rt ts time)
  /\ matchArc Strict time t = matchArc Lenient time t
  /\ occupiedArc Strict time t = occupiedArc Lenient time t
  /\ currentPosition Strict rt ts time = currentPosition Lenient rt ts time.
Proof.
  intros Hrt Hts. cbn zeta.
  rewrite matchArc_strict, occupiedArc_strict, currentPosition_strict by lia.
  repeat split.
  - apply in_bounds_matchArc.
  - apply in_bounds_occupiedArc.
  - apply in_bounds_currentPosition.
Qed.

(* ------------------------------------------------------------------ *)
(** ** The position on a well-formed path *)

Lemma lerp_points (a b : Q * Q) (alpha : Q) :
  lerp (point a) (point b) 0 (Fin alpha)
  = Ok (Fin (mix (fst a) (fst b) alpha))
  /\ lerp (point a) (point b) 1 (Fin alpha)
     = Ok (Fin (mix (snd a) (snd b) alpha)).
Proof. split; reflexivity. Qed.

(** Between two finite timestamps in strict order, [alpha] is the
    clamped quotient. *)
Lemma alphaOf_stamps (t t0 t1 : Q) :
  Qltb t0 t1 = true -> alphaOf t (Fin t0) (Fin t1) = Fin (fraction t0 t1 t).
Proof.
  intros H. unfold alphaOf, fraction. cbn [num_sub num_div].
  destruct (Qeq_bool (t1 - t0) 0) eqn:E; [|reflexivity].
  apply Qeq_bool_iff in E. apply Qltb_true in H. lra.
Qed.

(** The interpolation block once the search has returned [idx]. *)
Lemma currentPosition_from_index
    (m : access) (pts : list (Q * Q)) (qs : list Q) (t : Q) (idx : nat) :
  (1 <= List.length pts)%nat -> (1 <= List.length qs)%nat ->
  segmentLoop m (map stamp qs) t (List.length qs - 1) 0 0 = Ok idx ->
  currentPosition m (map point pts) (map stamp qs) t =
  let a := nth (clampIndex idx (List.length pts)) pts (0, 0) in
  let b := nth (clampIndex (idx + 1) (List.length pts)) pts (0, 0) in
  let t0 := nth (clampIndex idx (List.length qs)) qs 0 in
  let t1 := nth (clampIndex (idx + 1) (List.length qs)) qs 0 in
  if Qltb t0 t1
  then Ok (VArr [VNum (Fin (mix (fst a) (fst b) (fraction t0 t1 t)));
                 VNum (Fin (mix (snd a) (snd b) (fraction t0 t1 t)))])
  else Ok (point a).
Proof.
  intros Hp Hq Hidx. unfold currentPosition.
  rewrite !length_map, Hidx. cbn [bind].
  rewrite !get_point by now apply clampIndex_lt.
  rewrite !get_stamp by now apply clampIndex_lt.
  cbn [bind stamp num_lt]. cbn zeta.
  destruct (Qltb _ _) eqn:E; [|reflexivity].
  rewrite (alphaOf_stamps _ _ _ E).
  destruct (lerp_points (nth (clampIndex idx (List.length pts)) pts (0, 0))
                        (nth (clampIndex (idx + 1) (List.length pts)) pts (0, 0))
                        (fraction (nth (clampIndex idx (List.length qs)) qs 0)
                                  (nth (clampIndex (idx + 1) (List.length qs)) qs 0)
                                  t)) as [E0 E1].
  rewrite E0, E1. reflexivity.
Qed.

(** On a well-formed path the block always ends with a coordinate
    pair. *)
Lemma currentPosition_pair
    (m : access) (pts : list (Q * Q)) (qs : list Q) (t : Q) :
  (1 <= List.length pts)%nat -> (1 <= List.length qs)%nat ->
  exists x y,
    currentPosition m (map point pts) (map stamp qs) t
    = Ok (VArr [VNum (Fin x); VNum (Fin y)]).
Proof.
  intros Hp Hq.
  destruct (segmentLoop_total m qs t (List.length qs - 1) 0 0 ltac:(lia))
    as (idx & Hidx & _).
  rewrite (currentPosition_from_index m pts qs t idx Hp Hq Hidx). cbn zeta.
  destruct (Qltb _ _); eexists; eexists; reflexivity.
Qed.

Lemma clampIndex_id (i len : nat) : (i < len)%nat -> clampIndex i len = i.
Proof. unfold clampIndex. lia. Qed.

(** The block when the search has returned a proper segment of a path
    with as many points as timestamps. *)
Lemma sample_from_index (pts : list (Q * Q)) (qs : list Q) (t : Q) (k : nat) :
  List.length pts = List.length qs ->
  (S k < List.length qs)%nat ->
  segmentLoop Lenient (map stamp qs) t (List.length qs - 1) 0 0 = Ok k ->
  sample pts qs t =
  if Qltb (nth k qs 0) (nth (S k) qs 0)
  then Ok (VArr [VNum (Fin (mix (fst (nth k pts (0, 0)))
                                 (fst (nth (S k) pts (0, 0)))
                                 (fraction (nth k qs 0) (nth (S k) qs 0) t)));
                 VNum (Fin (mix (snd (nth k pts (0, 0)))
                                 (snd (nth (S k) pts (0, 0)))
                                 (fraction (nth k qs 0) (nth (S k) qs 0) t)))])
  else Ok (point (nth k pts (0, 0))).
Proof.
  intros Hlen Hk Hidx. unfold sample.
  rewrite (currentPosition_from_index Lenient pts qs t k) by (try lia; exact Hidx).
  cbn zeta. rewrite Nat.add_1_r.
  rewrite !clampIndex_id by lia. reflexivity.
Qed.

(** *** Non-decreasing timestamps *)

Lemma nondecreasing_le (qs : list Q) :
  nondecreasing qs ->
  forall i j, (i <= j)%nat -> (j < List.length qs)%nat -> nth i qs 0 <= nth j qs 0.
Proof.
  intros Hs i j Hij. induction Hij as [|j Hij IH]; intros Hj.
  - lra.
  - specialize (IH ltac:(lia)). specialize (Hs j Hj). lra.
Qed.

(** With non-decreasing timestamps, the segment that contains [t] is
    the one the search returns. *)
Lemma search_in_segment (qs : list Q) (t : Q) (k : nat) :
  nondecreasing qs ->
  (S k < List.length qs)%nat ->
  nth k qs 0 <= t -> t < nth (S k) qs 0 ->
  segmentLoop Lenient (map stamp qs) t (List.length qs - 1) 0 0 = Ok k.
Proof.
  intros Hs Hk Hlo Hhi.
  apply segmentLoop_found; try lia.
  - intros i Hi. unfold inSegment.
    pose proof (nondecreasing_le qs Hs (S i) k ltac:(lia) ltac:(lia)).
    destruct (Qltb_reflect t (nth (S i) qs 0)); [lra|].
    apply andb_false_r.
  - unfold inSegment.
    destruct (Qleb_reflect (nth k qs 0) t); [|contradiction].
    destruct (Qltb_reflect t (nth (S k) qs 0)); [reflexivity|contradiction].
Qed.

(** At or after the last timestamp the search returns the final
    segment. *)
Lemma search_after_end (qs : list Q) (t : Q) :
  nondecreasing qs ->
  (2 <= List.length qs)%nat ->
  nth (List.length qs - 1) qs 0 <= t ->
  segmentLoop Lenient (map stamp qs) t (List.length qs - 1) 0 0
  = Ok (List.length qs - 2)%nat.
Proof.
  intros Hs Hlen Hlast.
  rewrite segmentLoop_not_found.
  - destruct (List.length qs - 1)%nat eqn:E; [lia|].
    destruct (Qleb_reflect (nth (S n) qs 0) t); [reflexivity|contradiction].
  - lia.
  - intros i Hi. unfold inSegment.
    pose proof (nondecreasing_le qs Hs (S i) (List.length qs - 1)
                  ltac:(lia) ltac:(lia)).
    destruct (Qltb_reflect t (nth (S i) qs 0)); [lra|].
    apply andb_false_r.
Qed.

(** Before the first timestamp the search keeps the initial index 0. *)
Lemma search_before_start (qs : list Q) (t : Q) :
  nondecreasing qs ->
  (2 <= List.length qs)%nat ->
  t < nth 0 qs 0 ->
  segmentLoop Lenient (map stamp qs) t (List.length qs - 1) 0 0 = Ok 0%nat.
Proof.
  intros Hs Hlen Hfirst.
  rewrite segmentLoop_not_found.
  - destruct (List.length qs - 1)%nat eqn:E; [lia|].
    pose proof (nondecreasing_le qs Hs 0 (S n) ltac:(lia) ltac:(lia)).
    destruct (Qleb_reflect (nth (S n) qs 0) t); [lra|reflexivity].
  - lia.
  - intros i Hi. unfold inSegment.
    pose proof (nondecreasing_le qs Hs 0 i ltac:(lia) ltac:(lia)).
    destruct (Qleb_reflect (nth i qs 0) t); [lra|reflexivity].
Qed.

(** The fraction at the ends of a segment and outside it. *)
Lemma fraction_start (t0 t1 : Q) : t0 < t1 -> fraction t0 t1 t0 == 0.
Proof.
  intros H. unfold fraction, qmax, qmin.
  assert (E : (t0 - t0) / (t1 - t0) == 0) by (field; lra).
  set (d := _ / _) in *. clearbody d.
  order_cases; lra.
Qed.

Lemma fraction_end (t0 t1 : Q) : t0 < t1 -> fraction t0 t1 t1 == 1.
Proof.
  intros H. unfold fraction, qmax, qmin.
  assert (E : (t1 - t0) / (t1 - t0) == 1) by (field; lra).
  set (d := _ / _) in *. clearbody d.
  order_cases; lra.
Qed.

Lemma fraction_before (t0 t1 t : Q) : t0 < t1 -> t <= t0 -> fraction t0 t1 t == 0.
Proof.
  intros H Ht. unfold fraction, qmax, qmin.
  assert (E : (t - t0) / (t1 - t0) <= 0).
  { apply Qle_shift_div_r; lra. }
  set (d := _ / _) in *. clearbody d.
  order_cases; lra.
Qed.

Lemma fraction_after (t0 t1 t : Q) : t0 < t1 -> t1 <= t -> fraction t0 t1 t == 1.
Proof.
  intros H Ht. unfold fraction, qmax, qmin.
  assert (E : 1 <= (t - t0) / (t1 - t0)).
  { apply Qle_shift_div_l; lra. }
  set (d := _ / _) in *. clearbody d.
  order_cases; lra.
Qed.

Lemma at_position_mix (a b : Q * Q) (alpha : Q) (xy : Q * Q) :
  mix (fst a) (fst b) alpha == fst xy ->
  mix (snd a) (snd b) alpha == snd xy ->
  at_position (Ok (VArr [VNum (Fin (mix (fst a) (fst b) alpha));
                         VNum (Fin (mix (snd a) (snd b) alpha))])) xy.
Proof. intros Hx Hy. eexists. eexists. split; [reflexivity|]. split; assumption. Qed.

Lemma at_position_point (a : Q * Q) : at_position (Ok (point a)) a.
Proof. eexists. eexists. split; [reflexivity|]. split; reflexivity. Qed.

Lemma mix_0 (a b alpha : Q) : alpha == 0 -> mix a b alpha == a.
Proof. intros H. unfold mix. rewrite H. ring. Qed.

(* ------------------------------------------------------------------ *)
(** ** Path interpolation (C4) *)

(** C4, as the code has it.  On a path with as many points as
    timestamps and non-decreasing timestamps:
    - for [timestamps[k] <= t < timestamps[k+1]] the position is, per
      axis, [route[k] + (route[k+1] - route[k]) * alpha] with
      [alpha = clamp((t - timestamps[k]) / (timestamps[k+1] - timestamps[k]), 0, 1)];
    - for [t >= timestamps[last]] the final segment is used: with a
      positive duration [alpha] is 1 and the position is
      [route[len-2] + (route[len-1] - route[len-2]) * 1] per axis; with
      no duration the position is its start point [route[len-2]];
    - before [timestamps[0]] the position is [route[0]];
    - at the start time of a segment of positive duration the position
      is its start point; so at the end time of a segment the position
      is its end point when the next segment has a positive duration.
    Nothing is stated of the midpoint, and the end point is reached at
    the last timestamp only as far as [a + (b - a) * 1] is [b]. *)
Theorem path_interpolation (pts : list (Q * Q)) (qs : list Q) :
  List.length pts = List.length qs ->
  (2 <= List.length qs)%nat ->
  nondecreasing qs ->
  let P k := nth k pts (0, 0) in
  let T k := nth k qs 0 in
  let final := (List.length qs - 2)%nat in
  (forall k t, (S k < List.length qs)%nat -> T k <= t -> t < T (S k) ->
     sample pts qs t =
     Ok (VArr [VNum (Fin (mix (fst (P k)) (fst (P (S k)))
                              (fraction (T k) (T (S k)) t)));
               VNum (Fin (mix (snd (P k)) (snd (P (S k)))
                              (fraction (T k) (T (S k)) t)))]))
  /\ (forall t, T (S final) <= t -> T final < T (S final) ->
        fraction (T final) (T (S final)) t == 1
        /\ sample pts qs t =
           Ok (VArr [VNum (Fin (mix (fst (P final)) (fst (P (S final)))
                                    (fraction (T final) (T (S final)) t)));
                     VNum (Fin (mix (snd (P final)) (snd (P (S final)))
                                    (fraction (T final) (T (S final)) t)))]))
  /\ (forall t, T (S final) <= t -> T (S final) <= T final ->
        sample pts qs t = Ok (point (P final)))
  /\ (forall t, t < T 0%nat -> at_position (sample pts qs t) (P 0%nat))
  /\ (forall k, (S k < List.length qs)%nat -> T k < T (S k) ->
        at_position (sample pts qs (T k)) (P k))
  /\ (forall k, (S (S k) < List.length qs)%nat ->
        T k < T (S k) -> T (S k) < T (S (S k)) ->
        at_position (sample pts qs (T (S k))) (P (S k))).
Proof.
  intros Hlen H2 Hs P T final.
  assert (Hfinal : S final = (List.length qs - 1)%nat) by (unfold final; lia).
  assert (Hseg : forall k t, (S k < List.length qs)%nat -> T k <= t -> t < T (S k) ->
            sample pts qs t =
            Ok (VArr [VNum (Fin (mix (fst (P k)) (fst (P (S k)))
                                     (fraction (T k) (T (S k)) t)));
                      VNum (Fin (mix (snd (P k)) (snd (P (S k)))
                                     (fraction (T k) (T (S k)) t)))])).
  { intros k t Hk Hlo Hhi.
    rewrite (sample_from_index pts qs t k Hlen Hk)
      by (apply search_in_segment; assumption).
    fold (T k) (T (S k)) (P k) (P (S k)).
    destruct (Qltb_reflect (T k) (T (S k))) as [_|n]; [reflexivity|].
    exfalso. apply n. lra. }
  assert (Hafter : forall t, T (S final) <= t ->
            sample pts qs t =
            if Qltb (T final) (T (S final))
            then Ok (VArr [VNum (Fin (mix (fst (P final)) (fst (P (S final)))
                                          (fraction (T final) (T (S final)) t)));
                           VNum (Fin (mix (snd (P final)) (snd (P (S final)))
                                          (fraction (T final) (T (S final)) t)))])
            else Ok (point (P final))).
  { intros t Ht.
    rewrite (sample_from_index pts qs t final Hlen ltac:(lia)); [reflexivity|].
    apply search_after_end; try assumption.
    unfold T in Ht. rewrite Hfinal in Ht. exact Ht. }
  assert (Hstart : forall k, (S k < List.length qs)%nat -> T k < T (S k) ->
            at_position (sample pts qs (T k)) (P k)).
  { intros k Hk Hpos. rewrite (Hseg k (T k) Hk) by lra.
    apply at_position_mix; apply mix_0, fraction_start; exact Hpos. }
  split; [exact Hseg|].
  split.
  { intros t Ht Hpos. split; [apply fraction_after; assumption|].
    rewrite (Hafter t Ht).
    destruct (Qltb_reflect (T final) (T (S final))) as [_|n]; [|contradiction].
    reflexivity. }
  split.
  { intros t Ht Hzero. rewrite (Hafter t Ht).
    destruct (Qltb_reflect (T final) (T (S final))) as [c|_]; [lra|reflexivity]. }
  split.
  { intros t Ht.
    rewrite (sample_from_index pts qs t 0 Hlen ltac:(lia))
      by (apply search_before_start; assumption).
    fold (T 0%nat) (T 1%nat) (P 0%nat) (P 1%nat).
    destruct (Qltb_reflect (T 0%nat) (T 1%nat)) as [Hpos|_].
    - apply at_position_mix; apply mix_0, fraction_before; lra.
    - apply at_position_point. }
  split; [exact Hstart|].
  intros k Hk _ Hnext. apply Hstart; assumption.
Qed.

Lemma jumpStamps_nondecreasing : nondecreasing jumpStamps.
Proof.
  intros i Hi. cbn in Hi.
  destruct i as [|[|[|i]]]; cbn; try discriminate. lia.
Qed.

Lemma path_interpolation_witness :
  fraction 10 20 25 == 1
  /\ at_position (sample jumpPoints jumpStamps (-1)) (0, 0)
  /\ at_position (sample jumpPoints jumpStamps 0) (0, 0)
  /\ at_position (sample jumpPoints jumpStamps 10) (5, 5).
Proof.
  destruct (path_interpolation jumpPoints jumpStamps eq_refl ltac:(cbn; lia)
              jumpStamps_nondecreasing)
    as (_ & Hafter & _ & Hbefore & Hstart & _).
  split; [|split; [|split]].
  - exact (proj1 (Hafter 25 ltac:(discriminate) eq_refl)).
  - exact (Hbefore (-1) eq_refl).
  - exact (Hstart 0%nat ltac:(cbn; lia) eq_refl).
  - exact (Hstart 2%nat ltac:(cbn; lia) eq_refl).
Defined.

(** C4, counterexample.  On the path with timestamps [0, 10, 10, 20]
    along [[0,0], [1,1], [5,5], [9,9]] the first segment lasts from 0
    to 10 and ends at [1,1]; at its end time 10 the position is [5,5],
    the start of the segment that follows the one without duration. *)
Lemma segment_end_not_reached :
  nondecreasing jumpStamps
  /\ nth 0 jumpStamps 0 < nth 1 jumpStamps 0
  /\ at_position (sample jumpPoints jumpStamps (nth 1 jumpStamps 0)) (5, 5)
  /\ ~ at_position (sample jumpPoints jumpStamps (nth 1 jumpStamps 0))
                   (nth 1 jumpPoints (0, 0)).
Proof.
  split; [exact jumpStamps_nondecreasing|].
  split; [reflexivity|].
  split.
  - eexists. eexists. split; [vm_compute; reflexivity|].
    split; apply Qeq_bool_iff; reflexivity.
  - intros (x & y & E & Hx & _).
    vm_compute in E. injection E as <- <-.
    apply Qeq_bool_iff in Hx. discriminate.
Qed.

(* ------------------------------------------------------------------ *)
(** ** Trip phases (C1) *)

Lemma collect_one {A B : Type} (f : A -> outcome (option B)) (x : A) :
  collect f [x] =
  match f x with
  | Ok (Some y) => Ok [y]
  | Ok None => Ok []
  | Fail e => Fail e
  end.
Proof. cbn [collect]. destruct (f x) as [[y|]|e]; reflexivity. Qed.

Lemma skipped_tripOf (pid : value) (pts : list (Q * Q)) (qs : list Q) :
  (2 <= List.length pts)%nat -> (2 <= List.length qs)%nat ->
  skipped (Some (tripOf pid pts qs)) = false.
Proof.
  intros Hp Hq. unfold skipped, tripOf, shorter_than_2.
  cbn [trip_route trip_timestamp truthy negb orb js_length].
  rewrite !length_map.
  destruct (Nat.ltb_spec (List.length pts) 2); [lia|].
  destruct (Nat.ltb_spec (List.length qs) 2); [lia|]. reflexivity.
Qed.

(** The dispatch arc of a well-formed trip. *)
Lemma matchArc_tripOf (pid : value) (pts : list (Q * Q)) (qs : list Q) (t : Q) :
  (2 <= List.length pts)%nat -> (2 <= List.length qs)%nat ->
  exists src,
    currentPosition Lenient (map point pts) (map stamp qs) t = Ok src
    /\ matchArc Lenient t (Some (tripOf pid pts qs)) =
       if Qleb (nth 0 qs 0) t && Qleb t (nth 1 qs 0)
       then Ok (Some (mkArc src (point (nth 1 pts (0, 0)))))
       else Ok None.
Proof.
  intros Hp Hq.
  destruct (currentPosition_pair Lenient pts qs t ltac:(lia) ltac:(lia))
    as (x & y & Hcur).
  eexists. split; [exact Hcur|].
  unfold matchArc. rewrite skipped_tripOf by assumption.
  unfold tripOf. cbn [trip_route trip_timestamp elements].
  rewrite !get_stamp by lia. cbn [bind stamp num_lt].
  rewrite Hcur, get_point by lia. cbn [bind is_array point andb].
  unfold Qltb, Qleb.
  destruct (Qle_bool (nth 0 qs 0) t), (Qle_bool t (nth 1 qs 0)); reflexivity.
Qed.

(** The occupied arc of a well-formed trip. *)
Lemma occupiedArc_tripOf (pid : value) (pts : list (Q * Q)) (qs : list Q) (t : Q) :
  (2 <= List.length pts)%nat -> (2 <= List.length qs)%nat ->
  exists src,
    currentPosition Lenient (map point pts) (map stamp qs) t = Ok src
    /\ occupiedArc Lenient t (Some (tripOf pid pts qs)) =
       if Qleb (nth 1 qs 0) t && Qleb t (nth (List.length qs - 1) qs 0)
       then Ok (Some (mkArc src
                        (point (nth (List.length pts - 1) pts (0, 0)))))
       else Ok None.
Proof.
  intros Hp Hq.
  destruct (currentPosition_pair Lenient pts qs t ltac:(lia) ltac:(lia))
    as (x & y & Hcur).
  eexists. split; [exact Hcur|].
  unfold occupiedArc. rewrite skipped_tripOf by assumption.
  unfold tripOf. cbn [trip_route trip_timestamp elements].
  rewrite !length_map.
  rewrite !get_stamp by lia. cbn [bind stamp num_lt].
  rewrite Hcur, get_point by lia. cbn [bind is_array point andb].
  unfold Qltb, Qleb.
  destruct (Qle_bool (nth 1 qs 0) t),
           (Qle_bool t (nth (List.length qs - 1) qs 0)); reflexivity.
Qed.

(** C1, as the code has it.  For a trip with at least two route points
    and two numeric timestamps, the dispatch arc (towards [route[1]])
    is emitted exactly for [timestamp[0] <= t <= timestamp[1]] and the
    occupied arc (towards [route[last]]) exactly for
    [timestamp[1] <= t <= timestamp[last]], both windows closed at both
    ends.  At [t = timestamp[1]] the two windows overlap: the trip
    emits its dispatch arc and its occupied arc. *)
Theorem trip_phase_windows
    (pid : value) (pts : list (Q * Q)) (qs : list Q) (t : Q) :
  (2 <= List.length pts)%nat -> (2 <= List.length qs)%nat ->
  let trip := Some (tripOf pid pts qs) in
  let start := nth 0 qs 0 in
  let pickup := nth 1 qs 0 in
  let drop := nth (List.length qs - 1) qs 0 in
  let pickupPoint := point (nth 1 pts (0, 0)) in
  let dropPoint := point (nth (List.length pts - 1) pts (0, 0)) in
  (start <= t /\ t <= pickup ->
     exists src, matchArcs Lenient [trip] t = Ok [mkArc src pickupPoint])
  /\ (~ (start <= t /\ t <= pickup) -> matchArcs Lenient [trip] t = Ok [])
  /\ (pickup <= t /\ t <= drop ->
     exists src, occupiedArcs Lenient [trip] t = Ok [mkArc src dropPoint])
  /\ (~ (pickup <= t /\ t <= drop) -> occupiedArcs Lenient [trip] t = Ok [])
  /\ (start <= pickup -> pickup <= drop ->
     exists src,
       matchArcs Lenient [trip] pickup = Ok [mkArc src pickupPoint]
       /\ occupiedArcs Lenient [trip] pickup = Ok [mkArc src dropPoint]).
Proof.
  intros Hp Hq. cbn zeta. unfold matchArcs, occupiedArcs.
  rewrite !collect_one.
  destruct (matchArc_tripOf pid pts qs t Hp Hq) as (s1 & C1 & ->).
  destruct (occupiedArc_tripOf pid pts qs t Hp Hq) as (s2 & C2 & ->).
  split; [|split; [|split; [|split]]].
  - intros [H1 H2].
    destruct (Qleb_reflect (nth 0 qs 0) t); [|contradiction].
    destruct (Qleb_reflect t (nth 1 qs 0)); [|contradiction].
    exists s1. reflexivity.
  - intros H.
    destruct (Qleb_reflect (nth 0 qs 0) t);
      destruct (Qleb_reflect t (nth 1 qs 0)); cbn [andb];
      try reflexivity.
    exfalso. apply H. split; assumption.
  - intros [H1 H2].
    destruct (Qleb_reflect (nth 1 qs 0) t); [|contradiction].
    destruct (Qleb_reflect t (nth (List.length qs - 1) qs 0)); [|contradiction].
    exists s2. reflexivity.
  - intros H.
    destruct (Qleb_reflect (nth 1 qs 0) t);
      destruct (Qleb_reflect t (nth (List.length qs - 1) qs 0)); cbn [andb];
      try reflexivity.
    exfalso. apply H. split; assumption.
  - intros H1 H2.
    destruct (matchArc_tripOf pid pts qs (nth 1 qs 0) Hp Hq) as (s & C & ->).
    destruct (occupiedArc_tripOf pid pts qs (nth 1 qs 0) Hp Hq) as (s' & C' & ->).
    assert (s' = s) by congruence. subst s'.
    exists s.
    destruct (Qleb_reflect (nth 0 qs 0) (nth 1 qs 0)); [|contradiction].
    destruct (Qleb_reflect (nth 1 qs 0) (nth (List.length qs - 1) qs 0));
      [|contradiction].
    destruct (Qleb_reflect (nth 1 qs 0) (nth 1 qs 0)) as [_|n];
      [|exfalso; apply n; lra].
    split; reflexivity.
Qed.

Lemma trip_phase_windows_witness :
  (exists src,
     matchArcs Lenient [Some exampleTrip] 5 = Ok [mkArc src (point (1, 1))])
  /\ occupiedArcs Lenient [Some exampleTrip] 5 = Ok []
  /\ (exists src,
        occupiedArcs Lenient [Some exampleTrip] 15 = Ok [mkArc src (point (2, 2))])
  /\ matchArcs Lenient [Some exampleTrip] 25 = Ok []
  /\ (exists src,
        matchArcs Lenient [Some exampleTrip] 10 = Ok [mkArc src (point (1, 1))]
        /\ occupiedArcs Lenient [Some exampleTrip] 10
           = Ok [mkArc src (point (2, 2))]).
Proof.
  split; [|split; [|split; [|split]]].
  - apply (proj1 (trip_phase_windows VUndef [(0, 0); (1, 1); (2, 2)]
                    [0; 10; 20] 5 ltac:(cbn; lia) ltac:(cbn; lia))).
    split; discriminate.
  - destruct (trip_phase_windows VUndef [(0, 0); (1, 1); (2, 2)]
                [0; 10; 20] 5 ltac:(cbn; lia) ltac:(cbn; lia))
      as (_ & _ & _ & H & _).
    apply H. intros [H1 _]. apply H1. reflexivity.
  - destruct (trip_phase_windows VUndef [(0, 0); (1, 1); (2, 2)]
                [0; 10; 20] 15 ltac:(cbn; lia) ltac:(cbn; lia))
      as (_ & _ & H & _).
    apply H. split; discriminate.
  - destruct (trip_phase_windows VUndef [(0, 0); (1, 1); (2, 2)]
                [0; 10; 20] 25 ltac:(cbn; lia) ltac:(cbn; lia))
      as (_ & H & _).
    apply H. intros [_ H2]. apply H2. reflexivity.
  - destruct (trip_phase_windows VUndef [(0, 0); (1, 1); (2, 2)]
                [0; 10; 20] 10 ltac:(cbn; lia) ltac:(cbn; lia))
      as (_ & _ & _ & _ & H).
    apply H; discriminate.
Defined.

(** C1, counterexample.  The trip of the specification's example
    (timestamps [0, 10, 20]) at [t = 10 = timestamp[1]]: the dispatch
    layer is not empty, it holds the arc from [[1,1]] to the pickup
    point [[1,1]]; the occupied layer holds an arc too. *)
Lemma dispatch_arc_at_pickup_instant :
  (exists src,
     matchArcs Lenient [Some exampleTrip] 10 = Ok [mkArc src (point (1, 1))]
     /\ at_position (Ok src) (1, 1))
  /\ matchArcs Lenient [Some exampleTrip] 10 <> Ok []
  /\ (exists src,
        occupiedArcs Lenient [Some exampleTrip] 10
        = Ok [mkArc src (point (2, 2))]).
Proof.
  split; [|split].
  - eexists. split; [vm_compute; reflexivity|].
    eexists. eexists. split; [reflexivity|].
    split; apply Qeq_bool_iff; reflexivity.
  - vm_compute. discriminate.
  - eexists. vm_compute. reflexivity.
Qed.

(* ------------------------------------------------------------------ *)
(** ** Malformed trips (C8) *)

Lemma collect_skip {A B : Type} (f : A -> outcome (option B))
                   (xs ys : list A) (x : A) :
  f x = Ok None -> collect f (xs ++ x :: ys) = collect f (xs ++ ys).
Proof.
  intros Hx. induction xs as [|a xs IH]; cbn [app collect].
  - rewrite Hx. cbn [bind]. destruct (collect f ys); reflexivity.
  - rewrite IH. reflexivity.
Qed.

Lemma destinations_skip (xs ys : list (option trip)) (x : option trip) (time : Q) :
  destination time x = None ->
  destinations (xs ++ x :: ys) time = destinations (xs ++ ys) time.
Proof.
  intros Hx. induction xs as [|a xs IH]; cbn [app destinations].
  - rewrite Hx. reflexivity.
  - rewrite IH. reflexivity.
Qed.

Lemma arr_get_lenient (l : list value) (i : nat) :
  arr_get Lenient l i = Ok (nth i l VUndef).
Proof.
  unfold arr_get. destruct (nth_error l i) as [v|] eqn:E.
  - now rewrite (nth_error_nth _ _ VUndef E).
  - apply nth_error_None in E. now rewrite nth_overflow.
Qed.

Lemma absentOrShort_skips (v : value) :
  absentOrShort v -> negb (truthy v) || shorter_than_2 v = true.
Proof.
  intros [->|[->|(l & -> & Hl)]]; try reflexivity.
  unfold shorter_than_2. cbn [truthy negb orb js_length].
  now apply Nat.ltb_lt.
Qed.

Lemma skipped_absentOrShort (t : trip) :
  absentOrShort (trip_route t) \/ absentOrShort (trip_timestamp t) ->
  skipped (Some t) = true.
Proof.
  unfold skipped. intros [H|H]; apply absentOrShort_skips in H;
    destruct (truthy (trip_route t)), (truthy (trip_timestamp t)),
             (shorter_than_2 (trip_route t)),
             (shorter_than_2 (trip_timestamp t));
    cbn in *; congruence.
Qed.

(** What each layer does with a trip whose boundary timestamp is not a
    number. *)
Lemma matchArc_needs_start (t : trip) (time : Q) :
  nonNumericAt t 0 -> matchArc Lenient time (Some t) = Ok None.
Proof.
  unfold nonNumericAt, matchArc. intros H.
  destruct (skipped (Some t)); [reflexivity|].
  rewrite !arr_get_lenient. cbn [bind].
  destruct (nth 0 (elements (trip_timestamp t)) VUndef);
    try reflexivity; discriminate.
Qed.

Lemma matchArc_needs_pickup (t : trip) (time : Q) :
  nonNumericAt t 1 -> matchArc Lenient time (Some t) = Ok None.
Proof.
  unfold nonNumericAt, matchArc. intros H.
  destruct (skipped (Some t)); [reflexivity|].
  rewrite !arr_get_lenient. cbn [bind].
  destruct (nth 0 (elements (trip_timestamp t)) VUndef); try reflexivity.
  destruct (nth 1 (elements (trip_timestamp t)) VUndef);
    try reflexivity; discriminate.
Qed.

Lemma occupiedArc_needs_pickup (t : trip) (time : Q) :
  nonNumericAt t 1 -> occupiedArc Lenient time (Some t) = Ok None.
Proof.
  unfold nonNumericAt, occupiedArc. intros H.
  destruct (skipped (Some t)); [reflexivity|].
  rewrite !arr_get_lenient. cbn [bind].
  destruct (nth 1 (elements (trip_timestamp t)) VUndef);
    try reflexivity; discriminate.
Qed.

Lemma occupiedArc_needs_drop (t : trip) (time : Q) :
  nonNumericAt t (lastIndex t) -> occupiedArc Lenient time (Some t) = Ok None.
Proof.
  unfold nonNumericAt, lastIndex, occupiedArc. intros H.
  destruct (skipped (Some t)); [reflexivity|].
  rewrite !arr_get_lenient. cbn [bind].
  destruct (nth 1 (elements (trip_timestamp t)) VUndef); try reflexivity.
  destruct (nth (List.length (elements (trip_timestamp t)) - 1)
                (elements (trip_timestamp t)) VUndef);
    try reflexivity; discriminate.
Qed.

Lemma destination_needs_pickup (t : trip) (time : Q) :
  nonNumericAt t 1 -> destination time (Some t) = None.
Proof.
  unfold nonNumericAt, destination. intros H.
  destruct (skipped (Some t)); [reflexivity|].
  destruct (nth 1 (elements (trip_timestamp t)) VUndef);
    try reflexivity; discriminate.
Qed.

Lemma destination_needs_drop (t : trip) (time : Q) :
  nonNumericAt t (lastIndex t) -> destination time (Some t) = None.
Proof.
  unfold nonNumericAt, lastIndex, destination. intros H.
  destruct (skipped (Some t)); [reflexivity|].
  destruct (nth 1 (elements (trip_timestamp t)) VUndef); try reflexivity.
  destruct (nth (List.length (elements (trip_timestamp t)) - 1)
                (elements (trip_timestamp t)) VUndef);
    try reflexivity; discriminate.
Qed.

Lemma malformed_contributes_nothing (t : trip) (time : Q) :
  malformed t ->
  destination time (Some t) = None
  /\ matchArc Lenient time (Some t) = Ok None
  /\ occupiedArc Lenient time (Some t) = Ok None.
Proof.
  intros [H|[H|[H|[H0 Hl]]]].
  - pose proof (skipped_absentOrShort t (or_introl H)) as S.
    unfold destination, matchArc, occupiedArc. rewrite S. auto.
  - pose proof (skipped_absentOrShort t (or_intror H)) as S.
    unfold destination, matchArc, occupiedArc. rewrite S. auto.
  - split; [|split].
    + now apply destination_needs_pickup.
    + now apply matchArc_needs_pickup.
    + now apply occupiedArc_needs_pickup.
  - split; [|split].
    + now apply destination_needs_drop.
    + now apply matchArc_needs_start.
    + now apply occupiedArc_needs_drop.
Qed.

(** C8, as the code has it.  A trip whose route or timestamp field is
    absent, [null] or shorter than two elements, whose pickup time
    [timestamp[1]] is not a number, or whose dispatch time
    [timestamp[0]] and drop time [timestamp[last]] are both not
    numbers, contributes nothing to the destination markers, the
    dispatch arcs and the occupied arcs, and raises no error: each of
    the three layers is what it is without that trip, and for the trip
    alone each layer is empty.  One boundary that is not a number
    removes the trip from the layers that use it, and only from them:
    [timestamp[0]] from the dispatch arcs, [timestamp[last]] from the
    occupied arcs and the destination markers. *)
Theorem malformed_trip_excluded
    (before after : list (option trip)) (t : trip) (time : Q) :
  (malformed t ->
     destinations (before ++ Some t :: after) time
     = destinations (before ++ after) time
     /\ matchArcs Lenient (before ++ Some t :: after) time
        = matchArcs Lenient (before ++ after) time
     /\ occupiedArcs Lenient (before ++ Some t :: after) time
        = occupiedArcs Lenient (before ++ after) time
     /\ destinations [Some t] time = []
     /\ matchArcs Lenient [Some t] time = Ok []
     /\ occupiedArcs Lenient [Some t] time = Ok [])
  /\ (nonNumericAt t 0 ->
        matchArcs Lenient (before ++ Some t :: after) time
        = matchArcs Lenient (before ++ after) time)
  /\ (nonNumericAt t (lastIndex t) ->
        occupiedArcs Lenient (before ++ Some t :: after) time
        = occupiedArcs Lenient (before ++ after) time
        /\ destinations (before ++ Some t :: after) time
           = destinations (before ++ after) time).
Proof.
  unfold matchArcs, occupiedArcs.
  split; [|split].
  - intros H.
    destruct (malformed_contributes_nothing t time H) as (D & M & O).
    split; [now apply destinations_skip|].
    split; [now apply collect_skip|].
    split; [now apply collect_skip|].
    split; [apply (destinations_skip [] [] _ _ D)|].
    split; [apply (collect_skip _ [] [] _ M)|apply (collect_skip _ [] [] _ O)].
  - intros H. apply collect_skip. now apply matchArc_needs_start.
  - intros H. split.
    + apply collect_skip. now apply occupiedArc_needs_drop.
    + apply destinations_skip. now apply destination_needs_drop.
Qed.

Lemma malformed_trip_excluded_witness :
  matchArcs Lenient
    [Some (mkTrip VUndef VUndef (VArr [stamp 0; stamp 10])); Some exampleTrip] 5
  = matchArcs Lenient [Some exampleTrip] 5
  /\ occupiedArcs Lenient
       [Some exampleTrip;
        Some (mkTrip VUndef (VArr [point (0, 0); point (1, 1)])
                     (VArr [stamp 0; VNull; VStr "20"]))] 15
     = occupiedArcs Lenient [Some exampleTrip] 15
  /\ destinations
       [Some (mkTrip VUndef (VArr [point (0, 0)]) (VArr [stamp 0; stamp 10]))] 5
     = [].
Proof.
  split; [|split].
  - destruct (malformed_trip_excluded [] [Some exampleTrip]
                (mkTrip VUndef VUndef (VArr [stamp 0; stamp 10])) 5)
      as [H _].
    apply H. left. left. reflexivity.
  - destruct (malformed_trip_excluded [Some exampleTrip] []
                (mkTrip VUndef (VArr [point (0, 0); point (1, 1)])
                        (VArr [stamp 0; VNull; VStr "20"])) 15)
      as [H _].
    apply H. right. right. left. reflexivity.
  - destruct (malformed_trip_excluded [] []
                (mkTrip VUndef (VArr [point (0, 0)]) (VArr [stamp 0; stamp 10])) 5)
      as [H _].
    apply H. left. right. right. exists [point (0, 0)].
    split; [reflexivity|cbn; lia].
Defined.

(** C8, counterexample.  A trip with timestamps [[0, 10, null]]: its
    drop time, a phase boundary, is not a number, yet at [t = 5] the
    trip is in the dispatch arcs, with target [[1,1]]; it is in neither
    of the two other layers. *)
Lemma dispatch_arc_without_drop_time :
  nonNumericAt tripWithoutDropTime (lastIndex tripWithoutDropTime)
  /\ match matchArcs Lenient [Some tripWithoutDropTime] 5 with
     | Ok [a] => target a = point (1, 1)
     | _ => False
     end
  /\ matchArcs Lenient [Some tripWithoutDropTime] 5 <> matchArcs Lenient [] 5
  /\ occupiedArcs Lenient [Some tripWithoutDropTime] 5 = Ok []
  /\ destinations [Some tripWithoutDropTime] 5 = [].
Proof.
  split; [reflexivity|]. split; [reflexivity|]. split; [discriminate|].
  split; reflexivity.
Qed.

(* ------------------------------------------------------------------ *)
(** ** Instances *)



Lemma arc_reads_in_bounds_witness :
  in_bounds (occupiedArc Strict 15
               (Some (mkTrip VUndef (VArr [point (0, 0); point (1, 1)])
                             (VArr [stamp 0; stamp 10; stamp 20]))))
  /\ matchArc Strict 5
       (Some (mkTrip VUndef (VArr [point (0, 0); point (1, 1); point (2, 2)])
                     (VArr [stamp 0; stamp 10])))
     = matchArc Lenient 5
         (Some (mkTrip VUndef (VArr [point (0, 0); point (1, 1); point (2, 2)])
                       (VArr [stamp 0; stamp 10]))).
Proof.
  split.
  - destruct (arc_reads_in_bounds VUndef [point (0, 0); point (1, 1)]
                [stamp 0; stamp 10; stamp 20] 15
                ltac:(cbn; lia) ltac:(cbn; lia)) as (_ & H & _).
    exact H.
  - destruct (arc_reads_in_bounds VUndef
                [point (0, 0); point (1, 1); point (2, 2)]
                [stamp 0; stamp 10] 5
                ltac:(cbn; lia) ltac:(cbn; lia)) as (_ & _ & _ & H & _).
    exact H.
Defined.

(** C10, counterexample.  Two trips that pass the guard.  The first
    route point of one has a single coordinate: the read of its second
    coordinate is past the end of the point and gives [undefined], and
    the source of the dispatch arc has [NaN] as its second coordinate.
    The route of the other is [true]: it has no elements, the read of
    [route[...]] is caught by the bounds check, and without the check
    the read of a coordinate of [undefined] raises a TypeError. *)
Lemma guard_does_not_bound_reads :
  skipped (Some tripWithShortPoint) = false
  /\ prop_get (nth 0 (elements (trip_route tripWithShortPoint)) VUndef) 1
     = Ok VUndef
  /\ match matchArcs Lenient [Some tripWithShortPoint] 5 with
     | Ok [a] => nth 1 (elements (source a)) VNull = VNum NaN
     | _ => False
     end
  /\ skipped (Some tripWithFlagRoute) = false
  /\ matchArc Strict 5 (Some tripWithFlagRoute) = Fail OutOfBounds
  /\ ~ in_bounds (matchArc Strict 5 (Some tripWithFlagRoute))
  /\ matchArc Lenient 5 (Some tripWithFlagRoute) = Fail TypeError.
Proof.
  split; [reflexivity|]. split; [reflexivity|]. split; [reflexivity|].
  split; [reflexivity|]. split; [reflexivity|].
  split; [intros H; apply H; reflexivity|reflexivity].
Qed.

(* ------------------------------------------------------------------ *)
(** ** The examples of the specification, evaluated *)

(** At [t = 15] the example trip is occupied, its arc starts at
    [[1.5, 1.5]] and ends at the destination [[2, 2]]. *)
Example example_trip_at_15 :
  matchArcs Lenient [Some exampleTrip] 15 = Ok []
  /\ destinations [Some exampleTrip] 15 = [point (2, 2)]
  /\ exists src,
       occupiedArcs Lenient [Some exampleTrip] 15 = Ok [mkArc src (point (2, 2))]
       /\ at_position (Ok src) (3 # 2, 3 # 2).
Proof.
  split; [reflexivity|]. split; [reflexivity|].
  eexists. split; [vm_compute; reflexivity|].
  eexists. eexists. split; [reflexivity|].
  split; apply Qeq_bool_iff; reflexivity.
Qed.

(** At [t = 25] the example trip is completed and emits nothing. *)
Example example_trip_at_25 :
  matchArcs Lenient [Some exampleTrip] 25 = Ok []
  /\ occupiedArcs Lenient [Some exampleTrip] 25 = Ok []
  /\ destinations [Some exampleTrip] 25 = [].
Proof. repeat split. Qed.

(** A route point that is [null] makes the dispatch layer raise: the
    guards of the layer look at the lengths and at the timestamps, not
    at the points. *)
Example null_route_point_raises :
  matchArcs Lenient
    [Some (mkTrip VUndef (VArr [VNull; point (1, 1)]) (VArr [stamp 0; stamp 10]))]
    5
  = Fail TypeError.
Proof. reflexivity. Qed.

(** The floor of one hour: trips that end at [minTime + 10] leave the
    upper bound at [minTime + 60]. *)
Example short_day_keeps_floor :
  maxTime [Some (tripOf VUndef [(0, 0); (1, 1)] [420; 430])] [] = minTime + 60.
Proof. reflexivity. Qed.

(** The passenger of the specification's example: called at 100, picked
    up at 130, invisible at 99 and 131, visible with wait 30 between. *)
Example example_passenger :
  let i := mkInfo (stamp 100) (stamp 130) (point (127, 37)) in
  visiblePassengers [i] 99 = []
  /\ visiblePassengers [i] 131 = []
  /\ visiblePassengers [i] 100 = [mkVisible (point (127, 37)) (stamp (130 - 100))]
  /\ visiblePassengers [i] 115 = [mkVisible (point (127, 37)) (stamp (130 - 100))]
  /\ waitToColor (stamp (130 - 100)) = Ok medium_red.
Proof. repeat split. Qed.

(* ================================================================== *)
(** * Further properties of the component *)

(* ------------------------------------------------------------------ *)
(** ** The destination layer *)

Lemma destination_tripOf (pid : value) (pts : list (Q * Q)) (qs : list Q) (t : Q) :
  (2 <= List.length pts)%nat -> (2 <= List.length qs)%nat ->
  destination t (Some (tripOf pid pts qs)) =
  if Qleb (nth 1 qs 0) t && Qleb t (nth (List.length qs - 1) qs 0)
  then Some (point (nth (List.length pts - 1) pts (0, 0)))
  else None.
Proof.
  intros Hp Hq. unfold destination. rewrite skipped_tripOf by assumption.
  unfold tripOf. cbn [trip_route trip_timestamp elements].
  rewrite !length_map.
  rewrite !nth_stamp, nth_point by lia. cbn [stamp num_lt].
  unfold Qltb, Qleb.
  destruct (Qle_bool (nth 1 qs 0) t),
           (Qle_bool t (nth (List.length qs - 1) qs 0)); reflexivity.
Qed.

Lemma destinations_app (xs ys : list (option trip)) (time : Q) :
  destinations (xs ++ ys) time = destinations xs time ++ destinations ys time.
Proof.
  induction xs as [|x xs IH]; [reflexivity|].
  cbn [app destinations]. destruct (destination time x); rewrite IH; reflexivity.
Qed.

(** X1.  The destination marker of a trip with at least two route
    points and two numeric timestamps is shown exactly for
    [timestamp[1] <= t <= timestamp[last]], both ends included, at
    [route[last]]; the other trips of the collection keep their
    markers, in their order. *)
Theorem destination_marker_window
    (before after : list (option trip))
    (pid : value) (pts : list (Q * Q)) (qs : list Q) (t : Q) :
  (2 <= List.length pts)%nat -> (2 <= List.length qs)%nat ->
  let trip := Some (tripOf pid pts qs) in
  let pickup := nth 1 qs 0 in
  let drop := nth (List.length qs - 1) qs 0 in
  (pickup <= t /\ t <= drop ->
     destinations (before ++ trip :: after) t =
     destinations before t
     ++ point (nth (List.length pts - 1) pts (0, 0)) :: destinations after t)
  /\ (~ (pickup <= t /\ t <= drop) ->
     destinations (before ++ trip :: after) t =
     destinations before t ++ destinations after t).
Proof.
  intros Hp Hq. cbn zeta.
  rewrite destinations_app. cbn [destinations].
  rewrite destination_tripOf by assumption.
  destruct (Qleb_reflect (nth 1 qs 0) t);
    destruct (Qleb_reflect t (nth (List.length qs - 1) qs 0)); cbn [andb];
    split; intros H; try reflexivity; try tauto.
Qed.

Lemma destination_marker_window_witness :
  destinations [Some exampleTrip] 20 = [point (2, 2)]
  /\ destinations [Some exampleTrip] 5 = [].
Proof.
  split.
  - apply (proj1 (destination_marker_window [] [] VUndef
                    [(0, 0); (1, 1); (2, 2)] [0; 10; 20] 20
                    ltac:(cbn; lia) ltac:(cbn; lia))).
    split; discriminate.
  - apply (proj2 (destination_marker_window [] [] VUndef
                    [(0, 0); (1, 1); (2, 2)] [0; 10; 20] 5
                    ltac:(cbn; lia) ltac:(cbn; lia))).
    intros [H _]. apply H. reflexivity.
Defined.

(** X2.  Whatever the trip record holds, when the occupied layer emits
    an arc for it, the destination layer emits a marker for it at the
    same instant, and the marker is the target of the arc. *)
Theorem occupied_arc_has_marker (time : Q) (t : option trip) (a : arc) :
  occupiedArc Lenient time t = Ok (Some a) ->
  destination time t = Some (target a).
Proof.
  unfold occupiedArc, destination.
  destruct (skipped t); [discriminate|].
  destruct t as [t|]; [|discriminate].
  rewrite !arr_get_lenient. cbn [bind].
  destruct (nth 1 (elements (trip_timestamp t)) VUndef) as [| | |p| |];
    try discriminate.
  destruct (nth (List.length (elements (trip_timestamp t)) - 1)
                (elements (trip_timestamp t)) VUndef) as [| | |d| |];
    try discriminate.
  destruct (num_lt (Fin time) p || num_lt d (Fin time)); [discriminate|].
  destruct (currentPosition Lenient _ _ time) as [curr|e]; cbn [bind];
    [|discriminate].
  destruct (is_array curr && is_array _); [|discriminate].
  intros [= <-]. reflexivity.
Qed.

Lemma occupied_arc_has_marker_witness :
  destinations [Some exampleTrip] 15 = [point (2, 2)].
Proof.
  assert (H : exists src,
             occupiedArc Lenient 15 (Some exampleTrip)
             = Ok (Some (mkArc src (point (2, 2))))).
  { eexists. vm_compute. reflexivity. }
  destruct H as (src & H).
  cbn [destinations].
  rewrite (occupied_arc_has_marker 15 (Some exampleTrip) _ H). reflexivity.
Defined.

(* ------------------------------------------------------------------ *)
(** ** The interpolated position *)

Lemma fraction_range (t0 t1 t : Q) :
  0 <= fraction t0 t1 t /\ fraction t0 t1 t <= 1.
Proof.
  unfold fraction, qmax, qmin.
  set (d := _ / _). clearbody d.
  order_cases; lra.
Qed.

Lemma clampIndex_succ (i len : nat) :
  clampIndex (i + 1) len = clampIndex i len
  \/ clampIndex (i + 1) len = S (clampIndex i len).
Proof. unfold clampIndex. lia. Qed.

(** X3.  On a path of coordinate pairs with numeric timestamps, of
    equal length or not and in any order, the position computed at any
    time is either a route point [a] itself, or the pair
    [a + (b - a) * alpha] per axis, where [a] and [b] are route points
    that are the same or consecutive and [alpha] is between 0 and 1:
    the indices are clamped into the route and the fraction into the
    segment. *)
Theorem position_on_clamped_segment
    (m : access) (pts : list (Q * Q)) (qs : list Q) (t : Q) :
  (1 <= List.length pts)%nat -> (1 <= List.length qs)%nat ->
  exists i j alpha,
    (i < List.length pts)%nat /\ (j < List.length pts)%nat
    /\ (j = i \/ j = S i)
    /\ 0 <= alpha /\ alpha <= 1
    /\ (currentPosition m (map point pts) (map stamp qs) t
        = Ok (point (nth i pts (0, 0)))
        \/ currentPosition m (map point pts) (map stamp qs) t
           = Ok (VArr [VNum (Fin (mix (fst (nth i pts (0, 0)))
                                      (fst (nth j pts (0, 0))) alpha));
                       VNum (Fin (mix (snd (nth i pts (0, 0)))
                                      (snd (nth j pts (0, 0))) alpha))])).
Proof.
  intros Hp Hq.
  destruct (segmentLoop_total m qs t (List.length qs - 1) 0 0 ltac:(lia))
    as (idx & Hidx & _).
  rewrite (currentPosition_from_index m pts qs t idx Hp Hq Hidx). cbn zeta.
  exists (clampIndex idx (List.length pts)),
         (clampIndex (idx + 1) (List.length pts)),
         (fraction (nth (clampIndex idx (List.length qs)) qs 0)
                   (nth (clampIndex (idx + 1) (List.length qs)) qs 0) t).
  pose proof (clampIndex_lt idx (List.length pts) Hp) as Hi.
  pose proof (clampIndex_lt (idx + 1) (List.length pts) Hp) as Hj.
  pose proof (clampIndex_succ idx (List.length pts)) as Hij.
  destruct (fraction_range
              (nth (clampIndex idx (List.length qs)) qs 0)
              (nth (clampIndex (idx + 1) (List.length qs)) qs 0) t)
    as [F0 F1].
  split; [exact Hi|]. split; [exact Hj|]. split; [exact Hij|].
  split; [exact F0|]. split; [exact F1|].
  destruct (Qltb _ _); [right|left]; reflexivity.
Qed.

Lemma position_on_clamped_segment_witness :
  exists i j alpha,
    (i < 2)%nat /\ (j < 2)%nat /\ (j = i \/ j = S i)
    /\ 0 <= alpha /\ alpha <= 1
    /\ (currentPosition Lenient (map point [(0, 0); (4, 2)])
                        (map stamp [0; 10; 20]) 5
        = Ok (point (nth i [(0, 0); (4, 2)] (0, 0)))
        \/ currentPosition Lenient (map point [(0, 0); (4, 2)])
                           (map stamp [0; 10; 20]) 5
           = Ok (VArr [VNum (Fin (mix (fst (nth i [(0, 0); (4, 2)] (0, 0)))
                                      (fst (nth j [(0, 0); (4, 2)] (0, 0)))
                                      alpha));
                       VNum (Fin (mix (snd (nth i [(0, 0); (4, 2)] (0, 0)))
                                      (snd (nth j [(0, 0); (4, 2)] (0, 0)))
                                      alpha))])).
Proof.
  exact (position_on_clamped_segment Lenient [(0, 0); (4, 2)] [0; 10; 20] 5
           ltac:(cbn; lia) ltac:(cbn; lia)).
Defined.

(** X4.  The segment is found without any order on the timestamps: the
    first index [k] with [timestamps[k] <= t < timestamps[k+1]] is used,
    also when [t] is at or after the last timestamp; when no segment
    contains [t], the final segment is used if [t >= timestamps[last]]
    and the first segment otherwise. *)
Theorem segment_search_any_order (pts : list (Q * Q)) (qs : list Q) (t : Q) :
  List.length pts = List.length qs ->
  (2 <= List.length qs)%nat ->
  let P k := nth k pts (0, 0) in
  let T k := nth k qs 0 in
  let on k :=
    if Qltb (T k) (T (S k))
    then Ok (VArr [VNum (Fin (mix (fst (P k)) (fst (P (S k)))
                                  (fraction (T k) (T (S k)) t)));
                   VNum (Fin (mix (snd (P k)) (snd (P (S k)))
                                  (fraction (T k) (T (S k)) t)))])
    else Ok (point (P k)) in
  let final := (List.length qs - 2)%nat in
  (forall k, (S k < List.length qs)%nat ->
     inSegment qs t k = true ->
     (forall i, (i < k)%nat -> inSegment qs t i = false) ->
     sample pts qs t = on k)
  /\ ((forall i, (S i < List.length qs)%nat -> inSegment qs t i = false) ->
      T (S final) <= t -> sample pts qs t = on final)
  /\ ((forall i, (S i < List.length qs)%nat -> inSegment qs t i = false) ->
      t < T (S final) -> sample pts qs t = on 0%nat).
Proof.
  intros Hlen H2. cbn zeta.
  assert (Hfinal : S (List.length qs - 2) = (List.length qs - 1)%nat) by lia.
  split; [|split].
  - intros k Hk Hin Hbefore.
    apply (sample_from_index pts qs t k Hlen Hk).
    apply segmentLoop_found; try lia; [|exact Hin].
    intros i Hi. apply Hbefore. lia.
  - intros Hnone Hafter.
    apply (sample_from_index pts qs t _ Hlen); [lia|].
    rewrite segmentLoop_not_found; [|lia|intros i Hi; apply Hnone; lia].
    rewrite Hfinal in Hafter.
    destruct (List.length qs - 1)%nat eqn:E; [lia|].
    destruct (Qleb_reflect (nth (S n) qs 0) t); [reflexivity|contradiction].
  - intros Hnone Hbefore.
    apply (sample_from_index pts qs t _ Hlen); [lia|].
    rewrite segmentLoop_not_found; [|lia|intros i Hi; apply Hnone; lia].
    rewrite Hfinal in Hbefore.
    destruct (List.length qs - 1)%nat eqn:E; [lia|].
    destruct (Qleb_reflect (nth (S n) qs 0) t); [lra|reflexivity].
Qed.

Lemma segment_search_any_order_witness :
  at_position (sample [(0, 0); (1, 1); (2, 2); (3, 3)] [0; 30; 10; 20] 25)
              (5 # 6, 5 # 6)
  /\ at_position (sample [(0, 0); (1, 1); (2, 2)] [10; 5; 20] 3) (0, 0).
Proof.
  split.
  - destruct (segment_search_any_order [(0, 0); (1, 1); (2, 2); (3, 3)]
                [0; 30; 10; 20] 25 eq_refl ltac:(cbn; lia)) as (H & _).
    rewrite (H 0%nat ltac:(cbn; lia) eq_refl).
    + eexists. eexists. split; [reflexivity|].
      split; apply Qeq_bool_iff; reflexivity.
    + intros i Hi. lia.
  - destruct (segment_search_any_order [(0, 0); (1, 1); (2, 2)]
                [10; 5; 20] 3 eq_refl ltac:(cbn; lia)) as (_ & _ & H).
    rewrite H.
    + eexists. eexists. split; [reflexivity|]. split; reflexivity.
    + intros i Hi. cbn in Hi.
      destruct i as [|[|i]]; [reflexivity|reflexivity|lia].
    + reflexivity.
Defined.

(** The position at the start of a segment of positive duration, and
    at the last timestamp. *)
Lemma sample_at_start (pts : list (Q * Q)) (qs : list Q) (k : nat) :
  List.length pts = List.length qs ->
  nondecreasing qs ->
  (S k < List.length qs)%nat ->
  nth k qs 0 < nth (S k) qs 0 ->
  at_position (sample pts qs (nth k qs 0)) (nth k pts (0, 0)).
Proof.
  intros Hlen Hs Hk Hpos.
  rewrite (sample_from_index pts qs _ k Hlen Hk)
    by (apply search_in_segment; try assumption; lra).
  destruct (Qltb_reflect (nth k qs 0) (nth (S k) qs 0)); [|contradiction].
  apply at_position_mix; apply mix_0, fraction_start; exact Hpos.
Qed.

Lemma sample_at_last (pts : list (Q * Q)) (qs : list Q) :
  List.length pts = List.length qs ->
  nondecreasing qs ->
  (2 <= List.length qs)%nat ->
  nth (List.length qs - 2) qs 0 < nth (List.length qs - 1) qs 0 ->
  exists alpha,
    alpha == 1
    /\ sample pts qs (nth (List.length qs - 1) qs 0)
       = Ok (VArr [VNum (Fin (mix (fst (nth (List.length pts - 2) pts (0, 0)))
                                  (fst (nth (List.length pts - 1) pts (0, 0)))
                                  alpha));
                   VNum (Fin (mix (snd (nth (List.length pts - 2) pts (0, 0)))
                                  (snd (nth (List.length pts - 1) pts (0, 0)))
                                  alpha))]).
Proof.
  intros Hlen Hs H2 Hpos.
  assert (E : S (List.length qs - 2) = (List.length qs - 1)%nat) by lia.
  rewrite (sample_from_index pts qs _ (List.length qs - 2) Hlen ltac:(lia))
    by (apply search_after_end; try assumption; lra).
  rewrite E, Hlen.
  destruct (Qltb_reflect (nth (List.length qs - 2) qs 0)
                         (nth (List.length qs - 1) qs 0)); [|contradiction].
  eexists. split; [|reflexivity].
  apply fraction_end. exact Hpos.
Qed.

(** X5.  On a trip with as many points as timestamps and non-decreasing
    timestamps, the arcs at the phase boundaries.  At [timestamp[0]]
    the dispatch arc starts at [route[0]].  At [timestamp[1]], when the
    segment that follows has a positive duration, the dispatch arc has
    shrunk to the pickup point: its source is its target.  At
    [timestamp[last]] the source of the occupied arc is computed on the
    final segment with [alpha] equal to 1, as
    [route[last-1] + (route[last] - route[last-1]) * 1] per axis.  The
    segments concerned have a positive duration. *)
Theorem arcs_at_phase_boundaries
    (pid : value) (pts : list (Q * Q)) (qs : list Q) :
  List.length pts = List.length qs ->
  (2 <= List.length qs)%nat ->
  nondecreasing qs ->
  let trip := Some (tripOf pid pts qs) in
  let T k := nth k qs 0 in
  let P k := nth k pts (0, 0) in
  let last := (List.length qs - 1)%nat in
  (T 0%nat < T 1%nat ->
     exists src,
       matchArcs Lenient [trip] (T 0%nat) = Ok [mkArc src (point (P 1%nat))]
       /\ at_position (Ok src) (P 0%nat))
  /\ ((2 < List.length qs)%nat -> T 1%nat < T 2%nat ->
     exists src,
       matchArcs Lenient [trip] (T 1%nat) = Ok [mkArc src (point (P 1%nat))]
       /\ at_position (Ok src) (P 1%nat))
  /\ (T (last - 1)%nat < T last ->
     exists alpha,
       alpha == 1
       /\ occupiedArcs Lenient [trip] (T last)
          = Ok [mkArc (VArr [VNum (Fin (mix (fst (P (last - 1)%nat))
                                            (fst (P last)) alpha));
                             VNum (Fin (mix (snd (P (last - 1)%nat))
                                            (snd (P last)) alpha))])
                      (point (P last))]).
Proof.
  intros Hlen H2 Hs. cbn zeta. unfold matchArcs, occupiedArcs.
  rewrite !collect_one.
  assert (Hp : (2 <= List.length pts)%nat) by lia.
  split; [|split].
  - intros Hpos.
    destruct (matchArc_tripOf pid pts qs (nth 0 qs 0) Hp H2) as (src & C & ->).
    destruct (Qleb_reflect (nth 0 qs 0) (nth 0 qs 0)) as [_|n];
      [|exfalso; apply n; lra].
    destruct (Qleb_reflect (nth 0 qs 0) (nth 1 qs 0)) as [_|n];
      [|exfalso; apply n; lra].
    exists src. split; [reflexivity|].
    fold (sample pts qs (nth 0 qs 0)) in C. rewrite <- C.
    apply sample_at_start; try assumption; lia.
  - intros H3 Hnext.
    pose proof (Hs 0%nat ltac:(lia)) as Hpos.
    destruct (matchArc_tripOf pid pts qs (nth 1 qs 0) Hp H2) as (src & C & ->).
    destruct (Qleb_reflect (nth 0 qs 0) (nth 1 qs 0)) as [_|n];
      [|exfalso; apply n; lra].
    destruct (Qleb_reflect (nth 1 qs 0) (nth 1 qs 0)) as [_|n];
      [|exfalso; apply n; lra].
    exists src. split; [reflexivity|].
    fold (sample pts qs (nth 1 qs 0)) in C. rewrite <- C.
    apply sample_at_start; try assumption; lia.
  - intros Hpos.
    destruct (occupiedArc_tripOf pid pts qs (nth (List.length qs - 1) qs 0) Hp H2)
      as (src & C & ->).
    pose proof (nondecreasing_le qs Hs 1 (List.length qs - 1)
                  ltac:(lia) ltac:(lia)) as H1l.
    destruct (Qleb_reflect (nth 1 qs 0) (nth (List.length qs - 1) qs 0));
      [|contradiction].
    destruct (Qleb_reflect (nth (List.length qs - 1) qs 0)
                           (nth (List.length qs - 1) qs 0)) as [_|n];
      [|exfalso; apply n; lra].
    rewrite Hlen.
    fold (sample pts qs (nth (List.length qs - 1) qs 0)) in C.
    destruct (sample_at_last pts qs Hlen Hs H2) as (alpha & Ha & L).
    { replace (List.length qs - 2)%nat with (List.length qs - 1 - 1)%nat by lia.
      exact Hpos. }
    rewrite L in C. injection C as <-.
    exists alpha. split; [exact Ha|].
    rewrite Hlen.
    replace (List.length qs - 2)%nat with (List.length qs - 1 - 1)%nat by lia.
    reflexivity.
Qed.

Lemma arcs_at_phase_boundaries_witness :
  (exists src,
     matchArcs Lenient [Some exampleTrip] 10 = Ok [mkArc src (point (1, 1))]
     /\ at_position (Ok src) (1, 1))
  /\ (exists alpha,
        alpha == 1
        /\ occupiedArcs Lenient [Some exampleTrip] 20
           = Ok [mkArc (VArr [VNum (Fin (mix 1 2 alpha));
                              VNum (Fin (mix 1 2 alpha))])
                       (point (2, 2))]).
Proof.
  assert (S : nondecreasing [0; 10; 20]).
  { intros i Hi. cbn in Hi. destruct i as [|[|i]]; cbn; try discriminate. lia. }
  destruct (arcs_at_phase_boundaries VUndef [(0, 0); (1, 1); (2, 2)] [0; 10; 20]
              eq_refl ltac:(cbn; lia) S) as (_ & H1 & H2).
  split.
  - apply H1; [cbn; lia|reflexivity].
  - apply H2. reflexivity.
Defined.

(** X6.  When the route has fewer points than there are timestamps, the
    index is clamped to the route: during every segment from the last
    route point on, the position is the last route point. *)
Theorem short_route_stays_at_last_point
    (m : access) (pts : list (Q * Q)) (qs : list Q) (t : Q) (k : nat) :
  (1 <= List.length pts)%nat ->
  nondecreasing qs ->
  (List.length pts - 1 <= k)%nat ->
  (S k < List.length qs)%nat ->
  nth k qs 0 <= t -> t < nth (S k) qs 0 ->
  at_position (currentPosition m (map point pts) (map stamp qs) t)
              (nth (List.length pts - 1) pts (0, 0)).
Proof.
  intros Hp Hs Hk Hlen Hlo Hhi.
  assert (Hidx : segmentLoop m (map stamp qs) t (List.length qs - 1) 0 0 = Ok k).
  { apply segmentLoop_found; try lia.
    - intros i Hi. unfold inSegment.
      pose proof (nondecreasing_le qs Hs (S i) k ltac:(lia) ltac:(lia)).
      destruct (Qltb_reflect t (nth (S i) qs 0)); [lra|].
      apply andb_false_r.
    - unfold inSegment.
      destruct (Qleb_reflect (nth k qs 0) t); [|contradiction].
      destruct (Qltb_reflect t (nth (S k) qs 0)); [reflexivity|contradiction]. }
  rewrite (currentPosition_from_index m pts qs t k Hp ltac:(lia) Hidx). cbn zeta.
  assert (Ea : clampIndex k (List.length pts) = (List.length pts - 1)%nat)
    by (unfold clampIndex; lia).
  assert (Eb : clampIndex (k + 1) (List.length pts) = (List.length pts - 1)%nat)
    by (unfold clampIndex; lia).
  rewrite Ea, Eb.
  destruct (Qltb _ _).
  - apply at_position_mix; unfold mix; ring.
  - apply at_position_point.
Qed.

Lemma short_route_stays_at_last_point_witness :
  at_position
    (currentPosition Lenient (map point [(0, 0); (1, 1)])
                     (map stamp [0; 10; 20; 30]) 25)
    (1, 1).
Proof.
  apply (short_route_stays_at_last_point Lenient [(0, 0); (1, 1)]
           [0; 10; 20; 30] 25 2).
  - cbn; lia.
  - intros i Hi. cbn in Hi.
    destruct i as [|[|[|i]]]; cbn; try discriminate. lia.
  - cbn; lia.
  - cbn; lia.
  - discriminate.
  - reflexivity.
Defined.

(* ------------------------------------------------------------------ *)
(** ** The layers as loops over the trips *)

Lemma collect_app {A B : Type} (f : A -> outcome (option B)) (xs ys : list A) :
  collect f (xs ++ ys) =
  (a <- collect f xs ;; b <- collect f ys ;; Ok (a ++ b)).
Proof.
  induction xs as [|x xs IH]; cbn [app collect].
  - cbn [bind]. destruct (collect f ys); reflexivity.
  - destruct (f x) as [r|e]; cbn [bind]; [|reflexivity].
    rewrite IH.
    destruct (collect f xs) as [a|e]; cbn [bind]; [|reflexivity].
    destruct (collect f ys) as [b|e]; cbn [bind]; [|reflexivity].
    destruct r; reflexivity.
Qed.

Lemma matchArc_null_first_point
    (pid b : value) (more : list value) (q0 q1 t : Q) :
  q0 < q1 -> q0 <= t -> t <= q1 ->
  matchArc Lenient t
    (Some (mkTrip pid (VArr (VNull :: b :: more)) (VArr [stamp q0; stamp q1])))
  = Fail TypeError.
Proof.
  intros H01 Hlo Hhi.
  assert (E : Qltb q0 q1 = true) by now apply Qltb_true.
  unfold stamp, matchArc, skipped, shorter_than_2.
  cbn [trip_route trip_timestamp truthy js_length List.length negb orb
       Nat.ltb Nat.leb elements].
  cbn [arr_get nth_error bind stamp num_lt].
  destruct (Qltb_reflect t q0) as [c|_]; [lra|].
  destruct (Qltb_reflect q1 t) as [c|_]; [lra|]. cbn [orb].
  unfold currentPosition.
  cbn [List.length Nat.sub segmentLoop arr_get nth_error bind Nat.add
       stamp num_le num_lt time_ge to_number].
  destruct (Qleb q0 t && Qltb t q1); cbn [bind].
  - unfold clampIndex.
    cbn [List.length Nat.sub Nat.add Nat.min Nat.max arr_get nth_error bind
         num_lt].
    rewrite E. reflexivity.
  - destruct (Qleb q1 t); unfold clampIndex;
      cbn [List.length Nat.sub Nat.add Nat.min Nat.max arr_get nth_error bind
           num_lt];
      rewrite E; reflexivity.
Qed.

(** X8.  A route whose first point is [null], in a trip with two
    numeric timestamps [q0 < q1], passes every guard of the dispatch
    layer; at any time of its dispatch window the read of its
    coordinates raises a TypeError, and the whole layer raises with it,
    whatever the other trips are, as long as no earlier trip raised. *)
Theorem null_route_point_aborts_layer
    (before after : list (option trip)) (arcs : list arc)
    (pid b : value) (more : list value) (q0 q1 t : Q) :
  q0 < q1 -> q0 <= t -> t <= q1 ->
  matchArcs Lenient before t = Ok arcs ->
  matchArcs Lenient
    (before
     ++ Some (mkTrip pid (VArr (VNull :: b :: more)) (VArr [stamp q0; stamp q1]))
     :: after) t
  = Fail TypeError.
Proof.
  intros H01 Hlo Hhi Hbefore.
  unfold matchArcs in *. rewrite collect_app, Hbefore. cbn [bind collect].
  rewrite matchArc_null_first_point by assumption. reflexivity.
Qed.

Lemma null_route_point_aborts_layer_witness :
  matchArcs Lenient
    [Some exampleTrip;
     Some (mkTrip VUndef (VArr [VNull; point (1, 1)]) (VArr [stamp 0; stamp 10]))]
    5
  = Fail TypeError.
Proof.
  assert (H : exists arcs, matchArcs Lenient [Some exampleTrip] 5 = Ok arcs).
  { eexists. vm_compute. reflexivity. }
  destruct H as (arcs & H).
  apply (null_route_point_aborts_layer [Some exampleTrip] [] arcs VUndef
           (point (1, 1)) [] 0 10 5); try discriminate.
  - reflexivity.
  - exact H.
Defined.

(* ------------------------------------------------------------------ *)
(** ** Passengers *)

Lemma visiblePassenger_some (t : Q) (i : info) (v : visible) :
  visiblePassenger t i = Some v ->
  exists c p,
    call i = VNum c /\ pickupTime i = VNum p
    /\ num_le c (Fin t) = true /\ num_le (Fin t) p = true
    /\ truthy (pickupLoc i) = true
    /\ v = mkVisible (pickupLoc i) (VNum (num_sub p c)).
Proof.
  unfold visiblePassenger.
  destruct (call i) as [| | |c| |]; try discriminate.
  destruct (pickupTime i) as [| | |p| |]; try discriminate.
  destruct (truthy (pickupLoc i)); [|discriminate].
  destruct (num_le c (Fin t)) eqn:Ec; [|discriminate].
  destruct (num_le (Fin t) p) eqn:Ep; [|discriminate].
  cbn [andb]. intros [= <-]. exists c, p. auto 10.
Qed.

(** A wait between a call that has come and a pickup still to come is
    not negative; it is [Infinity] when the call is [-Infinity] or the
    pickup [Infinity]. *)
Lemma wait_nonneg (c p : num) (t : Q) :
  num_le c (Fin t) = true -> num_le (Fin t) p = true ->
  num_le (Fin 0) (num_sub p c) = true.
Proof.
  destruct c as [c| |[|]], p as [p| |[|]]; cbn; try discriminate;
    try reflexivity.
  intros Hc Hp. apply Qleb_true in Hc, Hp. apply Qleb_true. lra.
Qed.

(** The colour of a wait that is not negative: the thresholds applied
    to the wait itself. *)
Lemma waitToColor_nonneg (w : num) :
  num_le (Fin 0) w = true ->
  waitToColor (VNum w) =
  Ok (if num_lt w (Fin 15) then near_white
      else if num_lt w (Fin 30) then light_red
      else if num_lt w (Fin 45) then medium_red
      else if num_lt w (Fin 60) then darker_red
      else deep_red).
Proof.
  destruct w as [w| |[|]]; cbn [num_le]; try discriminate.
  - intros _. rewrite waitToColor_number. reflexivity.
  - intros _. reflexivity.
Qed.

Lemma visiblePassengers_in (infos : list info) (t : Q) (v : visible) :
  In v (visiblePassengers infos t) ->
  exists i, In i infos /\ visiblePassenger t i = Some v.
Proof.
  induction infos as [|i infos IH]; cbn [visiblePassengers]; [intros []|].
  destruct (visiblePassenger t i) as [v'|] eqn:E.
  - intros [<-|H].
    + exists i. split; [now left|exact E].
    + destruct (IH H) as (i' & Hin & Hv). exists i'. split; [now right|exact Hv].
  - intros H. destruct (IH H) as (i' & Hin & Hv).
    exists i'. split; [now right|exact Hv].
Qed.

(** X9.  Every entry of the visible set carries the location of one of
    the resolved passengers, a location that is not missing, and a wait
    that is a number and not negative ([Infinity] when the call time is
    [-Infinity] or the pickup time [Infinity]): the colour function
    never fails on it and never has to clamp it. *)
Theorem visible_entries_have_colour (infos : list info) (t : Q) (v : visible) :
  In v (visiblePassengers infos t) ->
  (exists i, In i infos /\ vis_location v = pickupLoc i)
  /\ truthy (vis_location v) = true
  /\ exists w,
       vis_wait v = VNum w
       /\ ((exists q, w = Fin q /\ 0 <= q) \/ w = Inf false)
       /\ waitToColor (vis_wait v) =
          Ok (if num_lt w (Fin 15) then near_white
              else if num_lt w (Fin 30) then light_red
              else if num_lt w (Fin 45) then medium_red
              else if num_lt w (Fin 60) then darker_red
              else deep_red).
Proof.
  intros H. destruct (visiblePassengers_in infos t v H) as (i & Hin & Hv).
  destruct (visiblePassenger_some t i v Hv) as (c & p & _ & _ & Hc & Hp & Hl & ->).
  cbn [vis_location vis_wait].
  split; [exists i; split; [exact Hin|reflexivity]|].
  split; [exact Hl|].
  pose proof (wait_nonneg c p t Hc Hp) as Hw.
  exists (num_sub p c). split; [reflexivity|].
  split; [|apply waitToColor_nonneg, Hw].
  destruct (num_sub p c) as [q| |[|]]; cbn [num_le] in Hw; try discriminate.
  - left. exists q. split; [reflexivity|]. now apply Qleb_true.
  - now right.
Qed.

Lemma visible_entries_have_colour_witness :
  waitToColor (VNum (Fin (130 - 100))) = Ok medium_red.
Proof.
  destruct (visible_entries_have_colour
              [mkInfo (stamp 100) (stamp 130) (point (127, 37))] 115
              (mkVisible (point (127, 37)) (VNum (Fin (130 - 100))))
              (or_introl eq_refl))
    as (_ & _ & w & E & _ & C).
  cbn [vis_wait] in E, C. injection E as <-. rewrite C. reflexivity.
Defined.

Lemma scanRoute_number_or_null (lon lat : value) (ts pts : list value) :
  forall i,
    scanRoute lon lat ts pts i = VNull
    \/ is_number (scanRoute lon lat ts pts i) = true.
Proof.
  induction pts as [|pt pts IH]; intros i; [now left|].
  rewrite scanRoute_step. destruct (atPickup lon lat pt); [|apply IH].
  destruct (is_number (nth i ts VUndef)) eqn:E; [now right|now left].
Qed.

(** What [passengerInfo] returns once the trip part has given
    [fromTrip]. *)
Lemma passengerInfo_cases (byPid : pid_map) (p : passenger) :
  (exists fromTrip,
     (fromTrip = VNull \/ is_number fromTrip = true)
     /\ passengerInfo byPid p =
        Ok (mkInfo (callOf p)
              (let withWait :=
                 match callOf p, psg_wait_min p with
                 | VNum c, VNum w =>
                     if nullish fromTrip then VNum (num_add c w) else fromTrip
                 | _, _ => fromTrip
                 end in
               if nullish withWait then callOf p else withWait)
              (pickupLocOf p)))
  \/ (passengerInfo byPid p = Fail TypeError
      /\ destructurable (pickupLocOf p) = false
      /\ exists t, map_get byPid (psg_passenger_id p) = Some t
                   /\ is_array (trip_route t) = true
                   /\ is_array (trip_timestamp t) = true).
Proof.
  unfold passengerInfo.
  destruct (map_get byPid (psg_passenger_id p)) as [t|];
    [|left; exists VNull; split; [now left|reflexivity]].
  destruct (truthy (pickupLocOf p)) eqn:Et; cbn [andb];
    [|left; exists VNull; split; [now left|reflexivity]].
  destruct (is_array (trip_route t)) eqn:Er; cbn [andb];
    [|left; exists VNull; split; [now left|reflexivity]].
  destruct (is_array (trip_timestamp t)) eqn:Es; cbn [andb];
    [|left; exists VNull; split; [now left|reflexivity]].
  unfold destructurable. rewrite Et.
  destruct (pickupLocOf p) as [| |b|n|s|l]; cbn [destructure2 bind];
    try (right; split; [reflexivity|]; split; [reflexivity|];
         exists t; auto).
  - left. eexists. split; [apply scanRoute_number_or_null|reflexivity].
  - left. eexists. split; [apply scanRoute_number_or_null|reflexivity].
Qed.

(** X10.  When no passenger has a pickup location that is a non-zero
    number or [true], the resolution returns one info per passenger
    record that
    is not [null], in the order of the collection; the call time and
    the pickup location of an info are those of its record, whatever
    the trips are. *)
Theorem passengerInfos_one_per_passenger
    (passengers : list (option passenger)) (trips : list (option trip)) :
  (forall p, In (Some p) passengers -> destructurable (pickupLocOf p) = true) ->
  exists infos,
    passengerInfos passengers trips = Ok infos
    /\ map call infos = map callOf (present passengers)
    /\ map pickupLoc infos = map pickupLocOf (present passengers).
Proof.
  unfold passengerInfos.
  induction passengers as [|[p|] ps IH]; intros H; cbn [collect present map].
  - exists []. repeat split.
  - destruct IH as (infos & E & Hc & Hl);
      [intros q Hq; apply H; now right|].
    destruct (passengerInfo_cases (tripByPid trips) p)
      as [(f & _ & Ep)|(_ & Hd & _)].
    + rewrite Ep, E. cbn [bind]. eexists. split; [reflexivity|].
      cbn [map call pickupLoc]. rewrite Hc, Hl. split; reflexivity.
    + rewrite (H p (or_introl eq_refl)) in Hd. discriminate.
  - destruct IH as (infos & E & Hc & Hl);
      [intros q Hq; apply H; now right|].
    rewrite E. cbn [bind]. exists infos. repeat split; assumption.
Qed.

Lemma passengerInfos_one_per_passenger_witness :
  exists infos,
    passengerInfos [Some passengerAtStop; None; Some passengerNoWait] tripsOf7
    = Ok infos
    /\ List.length infos = 2%nat.
Proof.
  destruct (passengerInfos_one_per_passenger
              [Some passengerAtStop; None; Some passengerNoWait] tripsOf7)
    as (infos & E & Hc & _).
  - intros p [[= <-]|[[=]|[[= <-]|[]]]]; reflexivity.
  - exists infos. split; [exact E|].
    rewrite <- (length_map call), Hc. reflexivity.
Defined.

(** X11.  A passenger record whose [loc] is a flat coordinate pair
    [[lon, lat]] instead of a list of pairs has the number [lon] as its
    pickup location; if the passenger has a trip with a route and
    timestamps, destructuring that number raises a TypeError and the
    resolution of the whole collection fails, provided the earlier
    records were resolved. *)
Theorem flat_loc_raises
    (before after : list (option passenger)) (infos : list info)
    (trips : list (option trip)) (p : passenger) (t : trip)
    (lon : Q) (rest : list value) :
  psg_loc p = VArr (VNum (Fin lon) :: rest) ->
  ~ lon == 0 ->
  map_get (tripByPid trips) (psg_passenger_id p) = Some t ->
  is_array (trip_route t) = true ->
  is_array (trip_timestamp t) = true ->
  passengerInfos before trips = Ok infos ->
  passengerInfos (before ++ Some p :: after) trips = Fail TypeError.
Proof.
  intros Hloc Hlon Hget Hr Hs Hbefore.
  unfold passengerInfos in *.
  rewrite collect_app, Hbefore. cbn [bind collect].
  assert (E : passengerInfo (tripByPid trips) p = Fail TypeError).
  { unfold passengerInfo, pickupLocOf.
    rewrite Hget, Hloc, Hr, Hs.
    cbn [is_array elements List.length Nat.ltb Nat.leb andb nth truthy].
    destruct (Qeq_bool lon 0) eqn:Q0.
    - apply Qeq_bool_iff in Q0. contradiction.
    - reflexivity. }
  rewrite E. reflexivity.
Qed.

Lemma flat_loc_raises_witness :
  passengerInfos
    [Some (mkPassenger (VNum (Fin 7)) (VArr [stamp 3])
                       (VArr [stamp 127; stamp 37]) VUndef VUndef)]
    tripsOf7
  = Fail TypeError.
Proof.
  apply (flat_loc_raises [] [] [] tripsOf7 _ firstTripOf7 127 [stamp 37]);
    try reflexivity.
  discriminate.
Defined.

(** X12.  For every resolved passenger the call time and the pickup
    location are those of the record; a numeric call time always gives
    a numeric pickup time; and a record without a numeric call time (no
    timestamp array, or a first entry that is not a number) is visible
    at no time. *)
Theorem resolved_passenger_times (byPid : pid_map) (p : passenger) (i : info) :
  passengerInfo byPid p = Ok i ->
  call i = callOf p
  /\ pickupLoc i = pickupLocOf p
  /\ (is_number (callOf p) = true -> is_number (pickupTime i) = true)
  /\ (is_number (callOf p) = false -> forall t, visiblePassenger t i = None).
Proof.
  intros H.
  destruct (passengerInfo_cases byPid p) as [(f & Hf & E)|(E & _)];
    [|congruence].
  rewrite E in H. injection H as <-. cbn [call pickupLoc pickupTime].
  split; [reflexivity|]. split; [reflexivity|]. split.
  - intros Hc. cbn zeta.
    destruct (callOf p) as [| | |c| |]; try discriminate.
    destruct Hf as [->|Hf].
    + destruct (psg_wait_min p); reflexivity.
    + destruct f; try discriminate.
      destruct (psg_wait_min p); reflexivity.
  - intros Hc t. unfold visiblePassenger. cbn [call].
    destruct (callOf p) as [| | |c| |]; try reflexivity. discriminate.
Qed.

Lemma resolved_passenger_times_witness :
  visiblePassenger 5 (mkInfo VNull (stamp 10) (point (1, 1))) = None.
Proof.
  assert (E : passengerInfo (tripByPid tripsOf7)
                (mkPassenger (VNum (Fin 7)) VUndef (VArr [point (1, 1)])
                             VUndef VUndef)
              = Ok (mkInfo VNull (stamp 10) (point (1, 1)))) by reflexivity.
  destruct (resolved_passenger_times _ _ _ E) as (_ & _ & _ & H).
  apply H. reflexivity.
Defined.

(* ------------------------------------------------------------------ *)
(** ** The map from passenger id to trip *)

Lemma firstTrip_app (pid : value) (xs ys : list (option trip)) :
  firstTrip pid (xs ++ ys) =
  match firstTrip pid xs with
  | Some t => Some t
  | None => firstTrip pid ys
  end.
Proof.
  induction xs as [|[t|] xs IH]; cbn [app firstTrip]; [reflexivity| |exact IH].
  destruct (negb (nullish (trip_passenger_id t))
            && same_value_zero (trip_passenger_id t) pid);
    [reflexivity|exact IH].
Qed.

Lemma firstTrip_sound (pid : value) (trips : list (option trip)) (t : trip) :
  firstTrip pid trips = Some t ->
  In (Some t) trips
  /\ nullish (trip_passenger_id t) = false
  /\ same_value_zero (trip_passenger_id t) pid = true.
Proof.
  induction trips as [|[u|] trips IH]; cbn [firstTrip]; [discriminate| |].
  - destruct (nullish (trip_passenger_id u)) eqn:En; cbn [negb andb].
    + intros H. destruct (IH H) as (? & ? & ?). repeat split; auto. now right.
    + destruct (same_value_zero (trip_passenger_id u) pid) eqn:Es.
      * intros [= <-]. repeat split; auto. now left.
      * intros H. destruct (IH H) as (? & ? & ?). repeat split; auto. now right.
  - intros H. destruct (IH H) as (? & ? & ?). repeat split; auto. now right.
Qed.

Lemma firstTrip_complete (pid : value) (trips : list (option trip)) (t : trip) :
  In (Some t) trips ->
  nullish (trip_passenger_id t) = false ->
  same_value_zero (trip_passenger_id t) pid = true ->
  firstTrip pid trips <> None.
Proof.
  induction trips as [|[u|] trips IH]; cbn [firstTrip]; [intros []| |].
  - intros [[= ->]|Hin] Hn Hs.
    + rewrite Hn, Hs. discriminate.
    + destruct (negb _ && _); [discriminate|]. now apply IH.
  - intros [[=]|Hin] Hn Hs. now apply IH.
Qed.

(** X13.  The lookup in the id map is sound and complete: a trip it
    returns is a trip of the collection that carries the id asked for;
    and for every trip of the collection whose id is a number, a
    string or a boolean, the lookup of that id returns a trip.  An id
    that is [null], [undefined] or an array is never found. *)
Theorem tripByPid_lookup (trips : list (option trip)) (pid : value) :
  (forall t, map_get (tripByPid trips) pid = Some t ->
     In (Some t) trips
     /\ nullish (trip_passenger_id t) = false
     /\ same_value_zero (trip_passenger_id t) pid = true)
  /\ (forall t, In (Some t) trips ->
        nullish (trip_passenger_id t) = false ->
        same_value_zero (trip_passenger_id t) pid = true ->
        exists t', map_get (tripByPid trips) pid = Some t')
  /\ (nullish pid = true \/ is_array pid = true ->
        map_get (tripByPid trips) pid = None).
Proof.
  rewrite tripByPid_first. split; [|split].
  - apply firstTrip_sound.
  - intros t Hin Hn Hs.
    pose proof (firstTrip_complete pid trips t Hin Hn Hs) as H.
    destruct (firstTrip pid trips) as [t'|]; [now exists t'|contradiction].
  - intros Hp.
    destruct (firstTrip pid trips) as [t|] eqn:E; [|reflexivity].
    exfalso. destruct (firstTrip_sound pid trips t E) as (_ & Hn & Hs).
    destruct Hp as [Hp|Hp].
    + destruct pid; try discriminate;
        destruct (trip_passenger_id t) as [| | |[| |]| |]; discriminate.
    + destruct pid; try discriminate.
      destruct (trip_passenger_id t) as [| | |[| |]| |]; discriminate.
Qed.

Lemma tripByPid_lookup_witness :
  (exists t', map_get (tripByPid tripsOf7) (VNum (Fin (14 # 2))) = Some t')
  /\ map_get (tripByPid tripsOf7) VNull = None.
Proof.
  destruct (tripByPid_lookup tripsOf7 (VNum (Fin (14 # 2)))) as (_ & H & _).
  destruct (tripByPid_lookup tripsOf7 VNull) as (_ & _ & H').
  split.
  - apply (H secondTripOf7); [right; left; reflexivity|reflexivity|reflexivity].
  - apply H'. left. reflexivity.
Defined.

(** X14.  The first trip of an id wins for good: once the collection
    holds a trip for a passenger's id, trips appended to the collection
    change neither the trip found for that id nor the info resolved for
    the passenger. *)
Theorem appended_trips_do_not_rematch
    (trips more : list (option trip)) (p : passenger) (t : trip) :
  map_get (tripByPid trips) (psg_passenger_id p) = Some t ->
  map_get (tripByPid (trips ++ more)) (psg_passenger_id p) = Some t
  /\ passengerInfo (tripByPid (trips ++ more)) p
     = passengerInfo (tripByPid trips) p.
Proof.
  intros H.
  assert (E : map_get (tripByPid (trips ++ more)) (psg_passenger_id p) = Some t).
  { rewrite tripByPid_first, firstTrip_app.
    rewrite tripByPid_first in H. rewrite H. reflexivity. }
  split; [exact E|].
  unfold passengerInfo. rewrite E, H. reflexivity.
Qed.

Lemma appended_trips_do_not_rematch_witness :
  passengerInfo (tripByPid ([Some firstTripOf7] ++ [Some secondTripOf7]))
                passengerAtStop
  = passengerInfo (tripByPid [Some firstTripOf7]) passengerAtStop.
Proof.
  apply (proj2 (appended_trips_do_not_rematch [Some firstTripOf7]
                  [Some secondTripOf7] passengerAtStop firstTripOf7 eq_refl)).
Defined.

(* ------------------------------------------------------------------ *)
(** ** The clock loops *)





(* ------------------------------------------------------------------ *)
(** ** The upper bound and the data *)

Lemma qmax_least (a b c : Q) : a <= c -> b <= c -> qmax a b <= c.
Proof. intros. unfold qmax. order_cases; lra. Qed.

Lemma qmax_mono (a b a' b' : Q) : a <= a' -> b <= b' -> qmax a b <= qmax a' b'.
Proof.
  intros Ha Hb. pose proof (qmax_ub_l a' b'). pose proof (qmax_ub_r a' b').
  apply qmax_least; lra.
Qed.

(** X16.  More data never shortens the playable window: appending trips
    or passenger events, none of which ends at [Infinity], to the
    collections never lowers the upper bound of the clock. *)
Theorem maxTime_monotone
    (trips moreTrips : list (option trip))
    (passengers morePassengers : list (option passenger)) :
  (forall t, In (Some t) moreTrips -> ~ endsAtInfinity (trip_timestamp t)) ->
  (forall p, In (Some p) morePassengers ->
             ~ endsAtInfinity (psg_timestamp p)) ->
  maxTime trips passengers
  <= maxTime (trips ++ moreTrips) (passengers ++ morePassengers).
Proof.
  intros HT HP.
  destruct (dataMaxFromTrips_bounds trips)
    as [(_ & t & Hin & Hi)|(b & Eb & Hnb & _)].
  { rewrite !maxTime_infinite; [lra| |].
    - left. exists t. split; [apply in_or_app; now left|exact Hi].
    - left. exists t. split; assumption. }
  destruct (dataMaxFromPassengers_bounds passengers)
    as [(_ & p & Hin & Hi)|(c & Ec & Hnc & _)].
  { rewrite !maxTime_infinite; [lra| |].
    - right. exists p. split; [apply in_or_app; now left|exact Hi].
    - right. exists p. split; assumption. }
  destruct (dataMaxFromTrips_bounds (trips ++ moreTrips))
    as [(_ & t & Hin & Hi)|(b' & Eb' & _)].
  { apply in_app_or in Hin. destruct Hin as [Hin|Hin].
    - destruct (Hnb t Hin Hi).
    - destruct (HT t Hin Hi). }
  destruct (dataMaxFromPassengers_bounds (passengers ++ morePassengers))
    as [(_ & p & Hin & Hi)|(c' & Ec' & _)].
  { apply in_app_or in Hin. destruct Hin as [Hin|Hin].
    - destruct (Hnc p Hin Hi).
    - destruct (HP p Hin Hi). }
  rewrite (maxTime_candidate _ _ b c Eb Ec).
  rewrite (maxTime_candidate _ _ b' c' Eb' Ec').
  apply qmax_mono; [apply qmax_mono; [lra|]|].
  - apply (dataMaxFromTrips_incl trips (trips ++ moreTrips)); try assumption.
    intros t Hin. apply in_or_app. now left.
  - apply (dataMaxFromPassengers_incl passengers
             (passengers ++ morePassengers)); try assumption.
    intros p Hin. apply in_or_app. now left.
Qed.

Lemma maxTime_monotone_witness :
  maxTime [Some exampleTrip] []
  <= maxTime ([Some exampleTrip] ++ [Some firstTripOf7])
             ([] ++ [Some latePassenger]).
Proof.
  apply maxTime_monotone.
  - intros t [[= <-]|[]] (l & E & L). injection E as <-. discriminate.
  - intros p [[= <-]|[]] (l & E & L). injection E as <-. discriminate.
Defined.

(** X17.  The upper bound of the clock does not depend on the order of
    the records: two collections of trips with the same records, and
    two collections of passenger events with the same records, give
    equal bounds. *)
Theorem maxTime_order_independent
    (trips trips' : list (option trip))
    (passengers passengers' : list (option passenger)) :
  (forall t, In t trips <-> In t trips') ->
  (forall p, In p passengers <-> In p passengers') ->
  maxTime trips passengers == maxTime trips' passengers'.
Proof.
  intros Ht Hp.
  destruct (dataMaxFromTrips_bounds trips)
    as [(_ & t & Hin & Hi)|(b & Eb & Hnb & _)].
  { rewrite !maxTime_infinite; [reflexivity| |].
    - left. exists t. split; [now apply Ht|exact Hi].
    - left. exists t. split; assumption. }
  destruct (dataMaxFromPassengers_bounds passengers)
    as [(_ & p & Hin & Hi)|(c & Ec & Hnc & _)].
  { rewrite !maxTime_infinite; [reflexivity| |].
    - right. exists p. split; [now apply Hp|exact Hi].
    - right. exists p. split; assumption. }
  destruct (dataMaxFromTrips_bounds trips')
    as [(_ & t & Hin & Hi)|(b' & Eb' & _)].
  { apply Ht in Hin. destruct (Hnb t Hin Hi). }
  destruct (dataMaxFromPassengers_bounds passengers')
    as [(_ & p & Hin & Hi)|(c' & Ec' & _)].
  { apply Hp in Hin. destruct (Hnc p Hin Hi). }
  rewrite (maxTime_candidate _ _ b c Eb Ec).
  rewrite (maxTime_candidate _ _ b' c' Eb' Ec').
  assert (A : b == b').
  { apply Qle_antisym.
    - apply (dataMaxFromTrips_incl trips trips'); try assumption.
      intros t Hin. now apply Ht.
    - apply (dataMaxFromTrips_incl trips' trips); try assumption.
      intros t Hin. now apply Ht. }
  assert (B : c == c').
  { apply Qle_antisym.
    - apply (dataMaxFromPassengers_incl passengers passengers');
        try assumption.
      intros p Hin. now apply Hp.
    - apply (dataMaxFromPassengers_incl passengers' passengers);
        try assumption.
      intros p Hin. now apply Hp. }
  apply Qle_antisym; (apply qmax_mono; [apply qmax_mono|]); lra.
Qed.

Lemma maxTime_order_independent_witness :
  maxTime [Some exampleTrip; Some firstTripOf7; None] [Some latePassenger]
  == maxTime [None; Some firstTripOf7; Some exampleTrip] [Some latePassenger].
Proof.
  apply maxTime_order_independent.
  - intros t. cbn [In]. tauto.
  - intros p. tauto.
Defined.

(* ------------------------------------------------------------------ *)
(** ** The displayed time *)

Lemma Qfloor_add_Z (x : Q) (z : Z) : Qfloor (x + inject_Z z) = (Qfloor x + z)%Z.
Proof.
  pose proof (Qfloor_le x) as H1.
  pose proof (Qlt_floor x) as H2.
  apply Qfloor_unique.
  - rewrite inject_Z_plus. lra.
  - rewrite <- Z.add_assoc, (Z.add_comm z 1), Z.add_assoc.
    rewrite (inject_Z_plus (Qfloor x + 1) z). lra.
Qed.

Lemma Math_round_Z (n : Z) : Math_round (inject_Z n) = n.
Proof.
  unfold Math_round. apply Qfloor_unique.
  - lra.
  - rewrite inject_Z_plus. change (inject_Z 1) with 1. lra.
Qed.

Lemma Math_round_add_Z (t : Q) (z : Z) :
  Math_round (t + inject_Z z) = (Math_round t + z)%Z.
Proof.
  unfold Math_round. rewrite <- Qfloor_add_Z.
  apply Qfloor_comp. ring.
Qed.

(** X18.  A whole number of minutes is displayed as itself: for an hour
    [h] of the day and a minute [m] of the hour, the clock value
    [60 h + m] reads [h] and [m], each on two digits. *)
Theorem whole_minute_display (h m : Z) :
  (0 <= h < 24)%Z -> (0 <= m < 60)%Z ->
  returnAnimationDisplayTime (inject_Z (60 * h + m))
  = (addZeroFill h, addZeroFill m)
  /\ String.length (addZeroFill h) = 2%nat
  /\ String.length (addZeroFill m) = 2%nat.
Proof.
  intros Hh Hm. split.
  - unfold returnAnimationDisplayTime. rewrite Math_round_Z.
    rewrite hour_nonneg by lia.
    rewrite Z.rem_mod_nonneg by lia.
    replace ((60 * h + m) / 60)%Z with h
      by (apply (Z.div_unique _ 60 h m); lia).
    replace ((60 * h + m) mod 60)%Z with m
      by (apply (Z.mod_unique _ 60 h m); lia).
    rewrite Z.mod_small by lia. reflexivity.
  - split; apply addZeroFill_two_digits; lia.
Qed.

Lemma whole_minute_display_witness :
  returnAnimationDisplayTime (inject_Z (60 * 7 + 5)) = ("07", "05")%string.
Proof.
  destruct (whole_minute_display 7 5 ltac:(lia) ltac:(lia)) as [E _].
  rewrite E. reflexivity.
Defined.

(** X19.  The reading is a time of day: adding 24 hours (1440 minutes)
    to a clock value [t] from 0 to [clockLimit] does not change what is
    displayed. *)
Theorem display_repeats_daily (t : Q) :
  0 <= t -> t <= clockLimit ->
  returnAnimationDisplayTime (t + 1440) = returnAnimationDisplayTime t.
Proof.
  intros Ht _.
  pose proof (Math_round_nonneg t Ht) as Hn.
  assert (E : Math_round (t + 1440) = (Math_round t + 1440)%Z)
    by apply (Math_round_add_Z t 1440).
  unfold returnAnimationDisplayTime. rewrite E.
  rewrite !hour_nonneg by lia.
  rewrite !Z.rem_mod_nonneg by lia.
  replace (Math_round t + 1440)%Z with (Math_round t + 24 * 60)%Z by lia.
  rewrite Z.div_add by lia.
  rewrite Z.add_mod, Z.mod_same, Z.add_0_r, Z.mod_mod by lia.
  replace (Math_round t + 24 * 60)%Z with (Math_round t + 24 * 60)%Z by lia.
  rewrite Z.mod_add by lia. reflexivity.
Qed.

Lemma display_repeats_daily_witness :
  returnAnimationDisplayTime ((959 # 2) + 1440) = ("08", "00")%string.
Proof.
  rewrite (display_repeats_daily (959 # 2));
    [reflexivity|discriminate|discriminate].
Defined.

(* ------------------------------------------------------------------ *)
(** ** The colour ramp *)

(** X20.  The ramp runs one way: a longer wait never gets a colour
    with more green (a lighter, less red colour) than a shorter one. *)
Theorem longer_wait_not_lighter (w1 w2 : Q) :
  w1 <= w2 ->
  exists c1 c2,
    waitToColor (VNum (Fin w1)) = Ok c1
    /\ waitToColor (VNum (Fin w2)) = Ok c2
    /\ (green c2 <= green c1)%Z.
Proof.
  intros H. rewrite !waitToColor_number.
  eexists. eexists. split; [reflexivity|]. split; [reflexivity|].
  order_cases; cbn; try lia; lra.
Qed.

Lemma longer_wait_not_lighter_witness :
  exists c1 c2,
    waitToColor (VNum (Fin 20)) = Ok c1
    /\ waitToColor (VNum (Fin 50)) = Ok c2
    /\ (green c2 <= green c1)%Z.
Proof. apply (longer_wait_not_lighter 20 50). discriminate. Defined.

(* ------------------------------------------------------------------ *)
(** ** App.js: the time range of [getData] *)

Lemma last_in (l : list value) (d : value) : l <> [] -> In (last l d) l.
Proof.
  induction l as [|a l IH]; [congruence|]. intros _.
  destruct l as [|b l]; [now left|].
  right. apply IH. discriminate.
Qed.

Lemma last_of_stamps (qs : list Q) :
  qs <> [] -> exists q, last (map stamp qs) VUndef = stamp q.
Proof.
  intros H.
  assert (Hne : map stamp qs <> []) by (destruct qs; [congruence|discriminate]).
  pose proof (last_in (map stamp qs) VUndef Hne) as Hin.
  apply in_map_iff in Hin. destruct Hin as (q & <- & _). now exists q.
Qed.

(** One step of the scan on a record with numeric timestamps. *)
Lemma rangeStep_numeric (l h : option Q) (t : option trip) :
  numericTimestamps t ->
  exists l',
    rangeStep (lowerOf l, upperOf h) t
    = Ok (lowerOf l',
          upperOf (match lastNumber (tripTimestamp t), h with
                   | Some q, Some m => Some (if Qltb m q then q else m)
                   | Some q, None => Some q
                   | None, _ => h
                   end)).
Proof.
  intros (tr & -> & [E|(qs & E)]); unfold rangeStep; cbn [tripTimestamp];
    rewrite E.
  - exists l. reflexivity.
  - destruct qs as [|q0 qs]; [exists l; reflexivity|].
    cbn [js_length truthy negb orb elements].
    rewrite nth_last. unfold lastNumber.
    rewrite length_map. cbn [List.length Nat.eqb fst snd].
    destruct (last_of_stamps (q0 :: qs) ltac:(discriminate)) as (q & ->).
    cbn [map nth stamp].
    unfold below, above. cbn [to_number bind].
    exists (match l with
            | Some m => Some (if Qltb q0 m then q0 else m)
            | None => Some q0
            end).
    destruct l as [m|], h as [k|];
      cbn [lowerOf upperOf stamp to_number bind num_lt boundNumber negb];
      repeat match goal with |- context [Qltb ?x ?y] => destruct (Qltb x y) end;
      reflexivity.
Qed.

(** The scan over records with numeric timestamps. *)
Lemma scanRange_numeric (trips : list (option trip)) :
  Forall numericTimestamps trips ->
  forall l h,
  exists l' h',
    scanRange trips (lowerOf l, upperOf h) = Ok (lowerOf l', upperOf h')
    /\ (forall m, h = Some m -> exists q, h' = Some q /\ m <= q)
    /\ (forall t q, In t trips -> lastNumber (tripTimestamp t) = Some q ->
          exists q', h' = Some q' /\ q <= q')
    /\ (h' = h
        \/ exists t q, In t trips /\ lastNumber (tripTimestamp t) = Some q
                       /\ h' = Some q).
Proof.
  induction 1 as [|t trips Ht _ IH]; intros l h.
  - exists l, h. split; [reflexivity|]. split.
    + intros m ->. exists m. split; [reflexivity|lra].
    + split; [intros ? ? []|now left].
  - destruct (rangeStep_numeric l h t Ht) as (l1 & E1).
    cbn [scanRange]. rewrite E1. cbn [bind].
    set (h1 := match lastNumber (tripTimestamp t), h with
               | Some q, Some m => Some (if Qltb m q then q else m)
               | Some q, None => Some q
               | None, _ => h
               end) in *.
    destruct (IH l1 h1) as (l' & h' & E & Hmono & Hub & Hatt).
    exists l', h'. split; [exact E|].
    assert (Hstep_mono : forall m, h = Some m -> exists q, h1 = Some q /\ m <= q).
    { intros m ->. unfold h1.
      destruct (lastNumber (tripTimestamp t)) as [q|].
      - eexists. split; [reflexivity|]. destruct (Qltb_reflect m q); lra.
      - exists m. split; [reflexivity|lra]. }
    assert (Hstep_ub : forall q, lastNumber (tripTimestamp t) = Some q ->
                                 exists q1, h1 = Some q1 /\ q <= q1).
    { intros q Hq. unfold h1. rewrite Hq. destruct h as [m|].
      - eexists. split; [reflexivity|]. destruct (Qltb_reflect m q); lra.
      - exists q. split; [reflexivity|lra]. }
    assert (Hstep_att : h1 = h
                        \/ exists q, lastNumber (tripTimestamp t) = Some q
                                     /\ h1 = Some q).
    { unfold h1. destruct (lastNumber (tripTimestamp t)) as [q|]; [|now left].
      destruct h as [m|].
      - destruct (Qltb m q); [right; now exists q|now left].
      - right. now exists q. }
    split; [|split].
    + intros m Hm. destruct (Hstep_mono m Hm) as (q1 & H1 & Hle).
      destruct (Hmono q1 H1) as (q & Hq & Hle'). exists q. split; [exact Hq|lra].
    + intros u q [<-|Hin] Hq.
      * destruct (Hstep_ub q Hq) as (q1 & H1 & Hle).
        destruct (Hmono q1 H1) as (q' & Hq' & Hle'). exists q'.
        split; [exact Hq'|lra].
      * apply (Hub u q Hin Hq).
    + destruct Hatt as [->|(u & q & Hin & Hq & ->)].
      * destruct Hstep_att as [->|(q & Hq & ->)]; [now left|].
        right. exists t, q. split; [now left|]. split; [exact Hq|reflexivity].
      * right. exists u, q. split; [now right|]. split; [exact Hq|reflexivity].
Qed.

(** X21.  On trips whose timestamps are absent or arrays of numbers,
    [getData] of App.js stores the range from [SIM_START_MIN] to the
    last timestamp of the latest trip, rounded up to a whole minute;
    without any timestamp in the data both ends are [SIM_START_MIN].
    The minimum is never taken from the data, and no floor of one hour
    is applied here. *)
Theorem app_time_range (trips : list (option trip)) :
  Forall numericTimestamps trips ->
  ((forall t, In t trips -> lastNumber (tripTimestamp t) = None) ->
     timeRange trips = Ok (SIM_START_MIN, Fin SIM_START_MIN))
  /\ ((exists t, In t trips /\ lastNumber (tripTimestamp t) <> None) ->
      exists q,
        (exists t, In t trips /\ lastNumber (tripTimestamp t) = Some q)
        /\ (forall t q', In t trips ->
              lastNumber (tripTimestamp t) = Some q' -> q' <= q)
        /\ timeRange trips = Ok (SIM_START_MIN, Fin (inject_Z (Qceiling q)))
        /\ q <= inject_Z (Qceiling q)
        /\ inject_Z (Qceiling q) < q + 1).
Proof.
  intros Hnum.
  destruct (scanRange_numeric trips Hnum None None)
    as (l' & h' & E & _ & Hub & Hatt).
  unfold timeRange. change (PosInf, NegInf) with (lowerOf None, upperOf None).
  rewrite E. cbn [bind snd].
  split.
  - intros Hnone.
    destruct Hatt as [->|(t & q & Hin & Hq & _)]; [reflexivity|].
    rewrite (Hnone t Hin) in Hq. discriminate.
  - intros (t & Hin & Hsome).
    destruct (lastNumber (tripTimestamp t)) as [q0|] eqn:Eq0; [|congruence].
    destruct (Hub t q0 Hin Eq0) as (q & -> & _).
    destruct Hatt as [[=]|(u & q1 & Hu & Hq1 & [= <-])].
    exists q. split; [exists u; split; assumption|].
    split.
    + intros v q' Hv Hq'. destruct (Hub v q' Hv Hq') as (q2 & [= <-] & Hle).
      exact Hle.
    + split; [reflexivity|]. split; [apply Qle_ceiling|].
      pose proof (Qceiling_lt q) as Hc.
      unfold Z.sub in Hc. rewrite inject_Z_plus in Hc.
      change (inject_Z (- (1))) with (- (1)) in Hc. lra.
Qed.

Lemma app_time_range_witness :
  timeRange [Some exampleTrip] = Ok (SIM_START_MIN, Fin (inject_Z (Qceiling 20)))
  /\ timeRange [] = Ok (SIM_START_MIN, Fin SIM_START_MIN).
Proof.
  split.
  - assert (N : Forall numericTimestamps [Some exampleTrip]).
    { constructor; [|constructor]. exists exampleTrip. split; [reflexivity|].
      right. exists [0; 10; 20]. reflexivity. }
    destruct (app_time_range [Some exampleTrip] N) as (_ & H).
    destruct H as (q & (t & Hin & Hq) & _ & E & _).
    + exists (Some exampleTrip). split; [now left|discriminate].
    + destruct Hin as [<-|[]]. injection Hq as <-. exact E.
  - destruct (app_time_range [] (Forall_nil _)) as (H & _).
    apply H. intros t [].
Defined.

Lemma scanRange_app (xs ys : list (option trip)) (acc : bound * bound) :
  scanRange (xs ++ ys) acc = (acc' <- scanRange xs acc ;; scanRange ys acc').
Proof.
  revert acc. induction xs as [|x xs IH]; intros acc; [reflexivity|].
  cbn [app scanRange].
  destruct (rangeStep acc x) as [acc'|e]; cbn [bind]; [apply IH|reflexivity].
Qed.

(** X22.  A [null] entry in the trips is ignored by Trip.js and fatal
    in App.js: the scan of [getData] raises a TypeError when it reaches
    the entry, while the upper bound and the three trip layers of
    Trip.js are what they are without it. *)
Theorem null_trip_entry
    (before after : list (option trip)) (acc : bound * bound) (t : Q) :
  (scanRange before (PosInf, NegInf) = Ok acc ->
     timeRange (before ++ None :: after) = Fail TypeError)
  /\ dataMaxFromTrips (before ++ None :: after)
     = dataMaxFromTrips (before ++ after)
  /\ destinations (before ++ None :: after) t = destinations (before ++ after) t
  /\ matchArcs Lenient (before ++ None :: after) t
     = matchArcs Lenient (before ++ after) t
  /\ occupiedArcs Lenient (before ++ None :: after) t
     = occupiedArcs Lenient (before ++ after) t.
Proof.
  split; [|split; [|split; [|split]]].
  - intros H. unfold timeRange. rewrite scanRange_app, H. reflexivity.
  - rewrite !dataMaxFromTrips_scan, !map_app, !fold_left_app. reflexivity.
  - now apply destinations_skip.
  - unfold matchArcs. now apply collect_skip.
  - unfold occupiedArcs. now apply collect_skip.
Qed.

Lemma null_trip_entry_witness :
  timeRange ([Some exampleTrip] ++ [None; Some firstTripOf7]) = Fail TypeError.
Proof.
  assert (H : exists acc,
             scanRange [Some exampleTrip] (PosInf, NegInf) = Ok acc).
  { eexists. reflexivity. }
  destruct H as (acc & H).
  apply (proj1 (null_trip_entry [Some exampleTrip] [Some firstTripOf7] acc 0)).
  exact H.
Defined.

(* ------------------------------------------------------------------ *)
(** ** From the two data sets to the frame *)

(** X23.  A passenger whose pickup location is first met by its trip at
    route index [i]: the resolution gives the call time of the record
    and the trip's timestamp at [i], and the frame shows the passenger
    exactly from the call time to that timestamp, both included, with
    the difference of the two as wait. *)
Theorem passenger_shown_until_pickup
    (trips : list (option trip)) (p : passenger)
    (pid : value) (pts : list (Q * Q)) (qs : list Q)
    (c : Q) (laterCalls : list value) (xy : Q * Q) (otherLocs : list value)
    (i : nat) (t : Q) :
  map_get (tripByPid trips) (psg_passenger_id p) = Some (tripOf pid pts qs) ->
  psg_timestamp p = VArr (stamp c :: laterCalls) ->
  psg_loc p = VArr (point xy :: otherLocs) ->
  (i < List.length qs)%nat ->
  atPickup (stamp (fst xy)) (stamp (snd xy)) (nth i (map point pts) VUndef) = true ->
  (forall j, (j < i)%nat ->
     atPickup (stamp (fst xy)) (stamp (snd xy)) (nth j (map point pts) VUndef)
     = false) ->
  let resolved := mkInfo (stamp c) (stamp (nth i qs 0)) (point xy) in
  passengerInfos [Some p] trips = Ok [resolved]
  /\ (c <= t /\ t <= nth i qs 0 ->
        visiblePassengers [resolved] t
        = [mkVisible (point xy) (stamp (nth i qs 0 - c))])
  /\ (~ (c <= t /\ t <= nth i qs 0) -> visiblePassengers [resolved] t = []).
Proof.
  intros Hget Hts Hloc Hi Hat Hbefore. cbn zeta.
  assert (E : passengerInfo (tripByPid trips) p
              = Ok (mkInfo (stamp c) (stamp (nth i qs 0)) (point xy))).
  { unfold passengerInfo, callOf, pickupLocOf.
    rewrite Hget, Hts, Hloc.
    cbn [is_array elements List.length Nat.ltb Nat.leb andb nth truthy point
         tripOf trip_route trip_timestamp destructure2 bind fst snd].
    rewrite (scanRoute_first _ _ _ _ 0 i Hat Hbefore). cbn [Nat.add].
    rewrite nth_stamp by exact Hi. cbn [stamp is_number bind nullish].
    destruct (psg_wait_min p) as [| | |w| |]; reflexivity. }
  split.
  - unfold passengerInfos. cbn [collect]. rewrite E. reflexivity.
  - cbn [visiblePassengers]. unfold point, stamp.
    rewrite visiblePassenger_window.
    destruct (Qleb_reflect c t); destruct (Qleb_reflect t (nth i qs 0));
      cbn [andb]; split; intros H; try reflexivity; tauto.
Qed.

Lemma passenger_shown_until_pickup_witness :
  passengerInfos [Some passengerAtStop] tripsOf7
  = Ok [mkInfo (stamp 3) (stamp 10) (point (1, 1))]
  /\ visiblePassengers [mkInfo (stamp 3) (stamp 10) (point (1, 1))] 10
     = [mkVisible (point (1, 1)) (stamp (10 - 3))]
  /\ visiblePassengers [mkInfo (stamp 3) (stamp 10) (point (1, 1))] 11 = [].
Proof.
  assert (B : forall j, (j < 1)%nat ->
                atPickup (stamp 1) (stamp 1)
                  (nth j (map point [(0, 0); (1, 1); (2, 2)]) VUndef) = false).
  { intros j Hj. destruct j; [reflexivity|lia]. }
  destruct (passenger_shown_until_pickup tripsOf7 passengerAtStop
              (VNum (Fin 7)) [(0, 0); (1, 1); (2, 2)] [0; 10; 20]
              3 [] (1, 1) [] 1 10 eq_refl eq_refl eq_refl
              ltac:(cbn; lia) eq_refl B) as (H1 & H2 & _).
  destruct (passenger_shown_until_pickup tripsOf7 passengerAtStop
              (VNum (Fin 7)) [(0, 0); (1, 1); (2, 2)] [0; 10; 20]
              3 [] (1, 1) [] 1 11 eq_refl eq_refl eq_refl
              ltac:(cbn; lia) eq_refl B) as (_ & _ & H3).
  split; [exact H1|]. split.
  - apply H2. split; discriminate.
  - apply H3. intros [_ H]. apply H. reflexivity.
Defined.

(** X24.  For a trip with at least two route points and two numeric
    timestamps, the dispatch arc on one side and the occupied arc and
    the destination marker on the other are shown together at one
    instant only, [t = timestamp[1]]. *)
Theorem phases_meet_only_at_pickup
    (pid : value) (pts : list (Q * Q)) (qs : list Q) (t : Q) (a : arc) :
  (2 <= List.length pts)%nat -> (2 <= List.length qs)%nat ->
  matchArc Lenient t (Some (tripOf pid pts qs)) = Ok (Some a) ->
  (destination t (Some (tripOf pid pts qs)) <> None
   \/ occupiedArc Lenient t (Some (tripOf pid pts qs)) <> Ok None) ->
  t == nth 1 qs 0.
Proof.
  intros Hp Hq Hm Hor.
  destruct (matchArc_tripOf pid pts qs t Hp Hq) as (s1 & _ & E1).
  destruct (occupiedArc_tripOf pid pts qs t Hp Hq) as (s2 & _ & E2).
  rewrite E1 in Hm. rewrite E2, destination_tripOf in Hor by assumption.
  destruct (Qleb_reflect (nth 0 qs 0) t); cbn [andb] in Hm; [|discriminate].
  destruct (Qleb_reflect t (nth 1 qs 0)); [|discriminate].
  destruct (Qleb_reflect (nth 1 qs 0) t); [lra|].
  cbn [andb] in Hor. destruct Hor as [H|H]; contradiction.
Qed.

Lemma phases_meet_only_at_pickup_witness : (20 # 2) == 10.
Proof.
  assert (H : exists a, matchArc Lenient (20 # 2) (Some exampleTrip) = Ok (Some a)).
  { eexists. vm_compute. reflexivity. }
  destruct H as (a & H).
  apply (phases_meet_only_at_pickup VUndef [(0, 0); (1, 1); (2, 2)] [0; 10; 20]
           (20 # 2) a ltac:(cbn; lia) ltac:(cbn; lia) H).
  left. discriminate.
Defined.

(* ------------------------------------------------------------------ *)
(** ** Zero padding *)

Lemma toString_parses (z : Z) :
  NilZero.int_of_string (toString z) = Some (Z.to_int z).
Proof.
  unfold toString.
  apply NilZero.isi; destruct z as [|p|p]; cbn [Z.to_int]; try discriminate;
    intros [= H]; exact (DecimalPos.Unsigned.to_uint_nonnil p H).
Qed.

Lemma readBack_toString (z : Z) : readBack (toString z) = Some z.
Proof.
  unfold readBack. rewrite toString_parses. cbn [option_map].
  now rewrite DecimalZ.of_to.
Qed.

Lemma readBack_padded (c : ascii) (z : Z) :
  readBack (String c EmptyString) = Some z ->
  readBack (String "0" (String c EmptyString)) = Some z.
Proof.
  unfold readBack, NilZero.int_of_string.
  destruct (Ascii.eqb c "-") eqn:E.
  - cbn. discriminate.
  - change (Ascii.eqb "0" "-") with false. cbn iota.
    cbn [NilZero.uint_of_string NilEmpty.uint_of_string].
    destruct (uint_of_char c (Some Decimal.Nil)) as [u|]; [|discriminate].
    cbn [uint_of_char option_map]. intros [= <-]. reflexivity.
Qed.

(** X25.  Padding loses nothing: the digits [addZeroFill] returns read
    back as the number it was given, so two different numbers are never
    displayed alike. *)
Theorem addZeroFill_reads_back (z z' : Z) :
  readBack (addZeroFill z) = Some z
  /\ (addZeroFill z = addZeroFill z' -> z = z').
Proof.
  assert (R : forall n, readBack (addZeroFill n) = Some n).
  { intros n. unfold addZeroFill. cbn zeta.
    pose proof (readBack_toString n) as H.
    destruct (toString n) as [|c [|c' s]]; cbn [String.length Nat.ltb Nat.leb].
    - discriminate.
    - now apply readBack_padded.
    - exact H. }
  split; [apply R|].
  intros E. pose proof (R z) as H1. rewrite E, R in H1. congruence.
Qed.

Lemma addZeroFill_reads_back_witness :
  readBack (addZeroFill 7) = Some 7%Z /\ (3 + 4 = 7)%Z.
Proof.
  destruct (addZeroFill_reads_back (3 + 4) 7) as [H1 H2].
  split; [exact H1|]. apply H2. reflexivity.
Defined.
